(** * crawl.py: the Google Sites crawler of the SPC student IT club

    A shallow embedding of [crawl.py] and the properties of its URL
    classifier, link extractor, link rewriter, page materializer and
    crawl loop.

    Python [str] values are Rocq strings; a character above 127 stands for
    a non-ASCII code point.  Python [set] values are [gset string].  The
    module-level [visited] set, the output directory and the calls made to
    the browser live in an explicit [world] threaded through a small
    state-and-exception monad. *)

From Stdlib Require Import Ascii String List Bool Arith Lia.
From stdpp Require Import base option gmap strings list list_monad fin_maps sets.

Local Open Scope string_scope.
#[local] Arguments String.append !s1 s2 : simpl nomatch.
#[local] Set Warnings "-clear-no-such-hyp".

(** ** Exceptions and results *)

(** What [page.goto] raises. *)
Inductive playwright_exn : Type :=
| PwTimeoutError    (* navigation timeout *)
| PwError.          (* any other navigation failure *)

Inductive exn : Type :=
| ValueError                          (* raised by urllib.parse *)
| Playwright (e : playwright_exn)     (* raised by the browser *)
| ParserRejectedMarkup                (* raised by bs4 *)
| OSError.                            (* raised by open and write *)

Inductive result (A : Type) : Type :=
| Ok (a : A)
| Raise (e : exn).
Arguments Ok {A} a.
Arguments Raise {A} e.

#[global] Instance playwright_exn_eq_dec : EqDecision playwright_exn.
Proof. solve_decision. Defined.
#[global] Instance exn_eq_dec : EqDecision exn.
Proof. solve_decision. Defined.

#[global] Instance result_ret : MRet result := fun A a => Ok a.
#[global] Instance result_bind : MBind result := fun A B f m =>
  match m with
  | Ok a => f a
  | Raise e => Raise e
  end.
#[global] Instance result_fmap : FMap result := fun A B f m =>
  match m with
  | Ok a => Ok (f a)
  | Raise e => Raise e
  end.

Definition is_Ok {A} (r : result A) : Prop := exists a, r = Ok a.

(** ** Python string methods used by the crawler *)

Module Str.

Definition is_empty (s : string) : bool :=
  match s with
  | EmptyString => true
  | String _ _ => false
  end.

(** [c in chars] for a one-character [c]. *)
Fixpoint mem (c : ascii) (chars : string) : bool :=
  match chars with
  | EmptyString => false
  | String d chars' => Ascii.eqb c d || mem c chars'
  end.

(** [s.startswith(p)] *)
Fixpoint startswith (p s : string) : bool :=
  match p with
  | EmptyString => true
  | String c p' =>
      match s with
      | EmptyString => false
      | String d s' => Ascii.eqb c d && startswith p' s'
      end
  end.

(** [s[n:]] *)
Fixpoint drop (n : nat) (s : string) : string :=
  match n, s with
  | S n', String _ s' => drop n' s'
  | _, _ => s
  end.

(** [s.lstrip(chars)] *)
Fixpoint lstrip (chars : ascii -> bool) (s : string) : string :=
  match s with
  | EmptyString => EmptyString
  | String c s' => if chars c then lstrip chars s' else s
  end.

(** [s.rstrip(chars)] *)
Fixpoint rstrip (chars : ascii -> bool) (s : string) : string :=
  match s with
  | EmptyString => EmptyString
  | String c s' =>
      let r := rstrip chars s' in
      if is_empty r && chars c then EmptyString else String c r
  end.

(** [s.strip(chars)] *)
Definition strip (chars : string) (s : string) : string :=
  rstrip (fun c => mem c chars) (lstrip (fun c => mem c chars) s).

(** [s.partition(c)] for a one-character separator, [None] when
    [c not in s]; otherwise the text before and after the first [c]. *)
Fixpoint partition (sep : ascii) (s : string) : option (string * string) :=
  match s with
  | EmptyString => None
  | String c s' =>
      if Ascii.eqb c sep then Some (EmptyString, s')
      else match partition sep s' with
           | Some (a, b) => Some (String c a, b)
           | None => None
           end
  end.

(** [s.split(c)[0]] *)
Definition split_head (sep : ascii) (s : string) : string :=
  match partition sep s with
  | Some (a, _) => a
  | None => s
  end.

(** The longest prefix without a character of [stop], and the rest. *)
Fixpoint span (stop : ascii -> bool) (s : string) : string * string :=
  match s with
  | EmptyString => (EmptyString, EmptyString)
  | String c s' =>
      if stop c then (EmptyString, s)
      else let '(a, b) := span stop s' in (String c a, b)
  end.

Fixpoint filter (keep : ascii -> bool) (s : string) : string :=
  match s with
  | EmptyString => EmptyString
  | String c s' =>
      if keep c then String c (filter keep s') else filter keep s'
  end.

Fixpoint forallb (p : ascii -> bool) (s : string) : bool :=
  match s with
  | EmptyString => true
  | String c s' => p c && forallb p s'
  end.

Fixpoint map (f : ascii -> ascii) (s : string) : string :=
  match s with
  | EmptyString => EmptyString
  | String c s' => String (f c) (map f s')
  end.

Definition code (c : ascii) : nat := nat_of_ascii c.

Definition between (lo hi : nat) (c : ascii) : bool :=
  (lo <=? code c)%nat && (code c <=? hi)%nat.
Definition is_upper (c : ascii) : bool := between 65 90 c.
Definition is_lower (c : ascii) : bool := between 97 122 c.
Definition is_digit (c : ascii) : bool := between 48 57 c.
(** [c.isascii() and c.isalpha()] *)
Definition is_ascii_alpha (c : ascii) : bool := is_upper c || is_lower c.
Definition is_ascii (c : ascii) : bool := (code c <? 128)%nat.

(** [s.lower()] on the ASCII letters (only applied to scheme names). *)
Definition lower_char (c : ascii) : ascii :=
  if is_upper c then ascii_of_nat (code c + 32) else c.
Definition lower (s : string) : string := map lower_char s.

(** [s.replace(old, new)] for a non-empty [old]: the occurrences of [old]
    are found left to right and do not overlap; [skip] counts the
    characters of a found occurrence still to be dropped. *)
Fixpoint replace_from (old new : string) (skip : nat) (s : string) : string :=
  match s with
  | EmptyString => EmptyString
  | String c s' =>
      match skip with
      | S k => replace_from old new k s'
      | O =>
          if startswith old s
          then new ++ replace_from old new (String.length old - 1)%nat s'
          else String c (replace_from old new 0 s')
      end
  end.

(** [s.replace("", new)] puts [new] before every character and at the end. *)
Fixpoint interleave (new : string) (s : string) : string :=
  match s with
  | EmptyString => new
  | String c s' => new ++ String c (interleave new s')
  end.

Definition replace (old new : string) (s : string) : string :=
  if is_empty old then interleave new s else replace_from old new 0 s.

(** [c in s] for a one-character [c]. *)
Definition contains (c : ascii) (s : string) : bool := mem c s.

(** [s.rfind("/")] and [s.find(";", i)] as used by [_splitparams]: the text
    after the last [sep]. *)
Fixpoint after_last (sep : ascii) (s : string) : option (string * string) :=
  match s with
  | EmptyString => None
  | String c s' =>
      match after_last sep s' with
      | Some (a, b) => Some (String c a, b)
      | None => if Ascii.eqb c sep then Some (EmptyString, s') else None
      end
  end.

End Str.

(** ** urllib.parse

    [crawl.py] imports [urlparse] and [urljoin].  [urlsplit] and [urlparse]
    are embedded as far as they decide the path component and the
    [ValueError]s (CPython 3.12).  What needs the [ipaddress] and
    [unicodedata] modules, and the reference resolution of [urljoin], are
    taken as parameters. *)

Class Urllib : Type := {
  (** [_check_bracketed_netloc]: [true] when the bracketed host of a netloc
      holding both "[" and "]" is accepted. *)
  check_bracketed_netloc : string -> bool;
  (** [_checknetloc] on a netloc that is not ASCII: [true] when its NFKC
      normal form holds none of "/?#@:". *)
  checknetloc_nfkc : string -> bool;
  (** What [urljoin(base, url)] returns for a base and a reference that are
      not empty and that [urlparse] accepts: the reference resolved against
      the base. *)
  resolve_reference : string -> string -> string
}.

Module Url.

Record SplitResult : Type := mkSplit {
  scheme : string;
  netloc : string;
  path : string;
  query : string;
  fragment : string
}.

(** [_WHATWG_C0_CONTROL_OR_SPACE] *)
Definition c0_control_or_space (c : ascii) : bool := (Str.code c <=? 32)%nat.

(** [_UNSAFE_URL_BYTES_TO_REMOVE]: tab, carriage return, line feed. *)
Definition unsafe_url_byte (c : ascii) : bool :=
  (Str.code c =? 9)%nat || (Str.code c =? 13)%nat || (Str.code c =? 10)%nat.

(** [scheme_chars]: letters, digits and "+-." *)
Definition scheme_char (c : ascii) : bool :=
  Str.is_upper c || Str.is_lower c || Str.is_digit c || Str.mem c "+-.".

Definition uses_params : list string :=
  [""; "ftp"; "hdl"; "prospero"; "http"; "imap"; "https"; "shttp"; "rtsp";
   "rtspu"; "sip"; "sips"; "mms"; "sftp"; "tel"].

(** The scheme test of [urlsplit]: [i = url.find(":")], [i > 0], the first
    character an ASCII letter and [url[:i]] made of scheme characters. *)
Definition split_scheme (url : string) : string * string :=
  match Str.partition ":" url with
  | Some (String c0 _ as sch, rest) =>
      if Str.is_ascii_alpha c0 && Str.forallb scheme_char sch
      then (Str.lower sch, rest)
      else (EmptyString, url)
  | _ => (EmptyString, url)
  end.

(** [_splitnetloc(url, start)]: the netloc runs from [start] up to the first
    of "/?#". *)
Definition splitnetloc (url : string) (start : nat) : string * string :=
  Str.span (fun c => Str.mem c "/?#") (Str.drop start url).

(** The bracket tests [urlsplit] makes on the netloc. *)
Definition check_brackets `{Urllib} (netloc : string) : result unit :=
  let open := Str.contains "[" netloc in
  let close := Str.contains "]" netloc in
  if (open && negb close) || (close && negb open) then Raise ValueError
  else if open && close
       then if check_bracketed_netloc netloc then Ok tt else Raise ValueError
       else Ok tt.

(** [_checknetloc] *)
Definition checknetloc `{Urllib} (netloc : string) : result unit :=
  if Str.is_empty netloc || Str.forallb Str.is_ascii netloc then Ok tt
  else if checknetloc_nfkc netloc then Ok tt else Raise ValueError.

Definition split_at (sep : ascii) (url : string) : string * string :=
  match Str.partition sep url with
  | Some (a, b) => (a, b)
  | None => (url, EmptyString)
  end.

Definition urlsplit `{Urllib} (url : string) : result SplitResult :=
  let url := Str.lstrip c0_control_or_space url in
  let url := Str.filter (fun c => negb (unsafe_url_byte c)) url in
  let '(scheme, url) := split_scheme url in
  '(netloc, url) ←
    (if Str.startswith "//" url
     then let '(netloc, url) := splitnetloc url 2 in
          _ ← check_brackets netloc; Ok (netloc, url)
     else Ok (EmptyString, url));
  let '(url, fragment) := split_at "#" url in
  let '(url, query) := split_at "?" url in
  _ ← checknetloc netloc;
  Ok (mkSplit scheme netloc url query fragment).

(** [_splitparams(url)[0]] *)
Definition splitparams_path (url : string) : string :=
  match Str.after_last "/" url with
  | Some (dir, last) =>
      match Str.partition ";" last with
      | Some (a, _) => dir ++ String "/" a
      | None => url
      end
  | None => Str.split_head ";" url
  end.

(** [urljoin(base, url)]: an empty base or reference is answered at once;
    otherwise both are parsed, which may raise, and then joined. *)
Definition urljoin `{Urllib} (base url : string) : result string :=
  if Str.is_empty base then Ok url
  else if Str.is_empty url then Ok base
  else
    _ ← urlsplit base;
    _ ← urlsplit url;
    Ok (resolve_reference base url).

(** [urlparse(url).path] *)
Definition urlparse_path `{Urllib} (url : string) : result string :=
  r ← urlsplit url;
  if bool_decide (scheme r ∈ uses_params) && Str.contains ";" (path r)
  then Ok (splitparams_path (path r))
  else Ok (path r).

End Url.

(** ** crawl.py *)

Definition BASE_URL : string :=
  "https://sites.google.com/view/spc-student-it-club".
Definition START_PAGE : string := BASE_URL ++ "/home".
Definition OUTPUT_DIR : string := "spc-site".

(** [url.startswith(BASE_URL)] *)
Definition is_internal (url : string) : bool := Str.startswith BASE_URL url.

Definition url_to_filename `{Urllib} (url : string) : result string :=
  path ← Url.urlparse_path url;
  let path := Str.replace "/view/spc-student-it-club" "" path in
  let path := Str.replace "/" "_" (Str.strip "/" path) in
  let path := if Str.is_empty path then "home" else path in
  Ok (path ++ ".html").

(** ** BeautifulSoup

    The document tree of [bs4].  A tag has a name, a dict of attributes
    (kept in insertion order, keys unique) and a list of children; every
    other node is a string of some kind.  Attribute values are the
    attribute text; [bs4] keeps the multi-valued ones ([class], [rel], ...)
    as their whitespace-separated tokens, which [attr_tokens] recomputes.
    The parser and the serializer are parameters; the parser may reject
    a markup. *)

Inductive string_kind : Type :=
| PlainString | Comment | CData | ProcessingInstruction | Declaration | Doctype.

#[local] Set Warnings "-register-all".
Inductive node : Type :=
| NavigableString (kind : string_kind) (text : string)
| Tag (name : string) (attrs : list (string * string)) (contents : list node).

(** The [BeautifulSoup] object: the children of the document root. *)
Definition BeautifulSoup : Type := list node.

Class HtmlParser : Type := {
  (** What [BeautifulSoup(markup, "html.parser")] raises, if anything. *)
  parse_raises : string -> option exn;
  (** The document [BeautifulSoup(markup, "html.parser")] returns when it
      does not raise. *)
  parse : string -> BeautifulSoup;
  (** [str(soup)] *)
  serialize : BeautifulSoup -> string
}.

(** [BeautifulSoup(markup, "html.parser")] *)
Definition new_soup `{HtmlParser} (markup : string) : result BeautifulSoup :=
  match parse_raises markup with
  | Some e => Raise e
  | None => Ok (parse markup)
  end.

Section node_induction.
Variable P : node -> Prop.
Hypothesis P_string : forall k s, P (NavigableString k s).
Hypothesis P_tag : forall name attrs kids,
  Forall P kids -> P (Tag name attrs kids).

Fixpoint node_ind' (n : node) : P n :=
  match n with
  | NavigableString k s => P_string k s
  | Tag name attrs kids =>
      P_tag name attrs kids
        ((fix all (ks : list node) : Forall P ks :=
            match ks with
            | [] => @List.Forall_nil _ P
            | k :: ks' => @List.Forall_cons _ P k ks' (node_ind' k) (all ks')
            end) kids)
  end.
End node_induction.

Module Bs4.

(** [tag.get(key)] *)
Fixpoint get (key : string) (attrs : list (string * string)) : option string :=
  match attrs with
  | [] => None
  | (k, v) :: attrs' => if String.eqb k key then Some v else get key attrs'
  end.

(** [tag[key] = value]: the value of an existing key is replaced in place,
    a new key goes to the end. *)
Fixpoint set (key value : string) (attrs : list (string * string))
  : list (string * string) :=
  match attrs with
  | [] => [(key, value)]
  | (k, v) :: attrs' =>
      if String.eqb k key then (k, value) :: attrs'
      else (k, v) :: set key value attrs'
  end.

(** Whitespace as the [\S+] of [bs4] sees it. *)
Definition is_space (c : ascii) : bool :=
  Str.between 9 13 c || Str.between 28 32 c
  || (Str.code c =? 133)%nat || (Str.code c =? 160)%nat.

(** The tokens of a multi-valued attribute; [cur] is the token being read. *)
Fixpoint tokens_from (cur : string) (s : string) : list string :=
  let flush := if Str.is_empty cur then [] else [cur] in
  match s with
  | EmptyString => flush
  | String c s' =>
      if is_space c then flush ++ tokens_from EmptyString s'
      else tokens_from (cur ++ String c EmptyString) s'
  end.
Definition attr_tokens (value : string) : list string :=
  tokens_from EmptyString value.

(** The test of [find_all("a", href=True)] on one node. *)
Definition is_anchor (n : node) : option string :=
  match n with
  | Tag name attrs _ => if String.eqb name "a" then get "href" attrs else None
  | NavigableString _ _ => None
  end.

(** The test of [find_all("link", rel="stylesheet")] on one node: one token
    of [rel], or the tokens joined by single spaces, is "stylesheet". *)
Definition is_stylesheet_link (n : node) : bool :=
  match n with
  | Tag name attrs _ =>
      String.eqb name "link" &&
      match get "rel" attrs with
      | Some v =>
          existsb (String.eqb "stylesheet") (attr_tokens v)
          || String.eqb (String.concat " " (attr_tokens v)) "stylesheet"
      | None => false
      end
  | NavigableString _ _ => false
  end.

(** The [href] of every [a] tag that has one, in document order:
    [[tag["href"] for tag in soup.find_all("a", href=True)]]. *)
Fixpoint node_hrefs (n : node) : list string :=
  match n with
  | NavigableString _ _ => []
  | Tag name attrs kids =>
      match is_anchor n with Some h => [h] | None => [] end
      ++ flat_map node_hrefs kids
  end.
Definition hrefs (s : BeautifulSoup) : list string := flat_map node_hrefs s.

(** [soup.find("head")], which [soup.head] stands for: the first tag named
    "head" in document order. *)
Fixpoint node_find_head (n : node) : option node :=
  match n with
  | NavigableString _ _ => None
  | Tag name attrs kids =>
      if String.eqb name "head" then Some n
      else (fix first (ks : list node) : option node :=
              match ks with
              | [] => None
              | k :: ks' =>
                  match node_find_head k with
                  | Some h => Some h
                  | None => first ks'
                  end
              end) kids
  end.
Fixpoint head (s : BeautifulSoup) : option node :=
  match s with
  | [] => None
  | n :: s' =>
      match node_find_head n with
      | Some h => Some h
      | None => head s'
      end
  end.

(** [for link in soup.find_all("link", rel="stylesheet"): link.decompose()] *)
Fixpoint node_remove_stylesheets (n : node) : node :=
  match n with
  | NavigableString _ _ => n
  | Tag name attrs kids =>
      Tag name attrs
        ((fix go (ks : list node) : list node :=
            match ks with
            | [] => []
            | k :: ks' =>
                if is_stylesheet_link k then go ks'
                else node_remove_stylesheets k :: go ks'
            end) kids)
  end.
Fixpoint remove_stylesheets (s : BeautifulSoup) : BeautifulSoup :=
  match s with
  | [] => []
  | n :: s' =>
      if is_stylesheet_link n then remove_stylesheets s'
      else node_remove_stylesheets n :: remove_stylesheets s'
  end.

(** [soup.head.<method>]: [f] is applied to the children of the first
    "head" tag; a soup without one is returned as it is. *)
Fixpoint node_on_head (f : list node -> list node) (n : node) : node :=
  match n with
  | NavigableString _ _ => n
  | Tag name attrs kids =>
      if String.eqb name "head" then Tag name attrs (f kids)
      else Tag name attrs
        ((fix go (ks : list node) : list node :=
            match ks with
            | [] => []
            | k :: ks' =>
                match node_find_head k with
                | Some _ => node_on_head f k :: ks'
                | None => k :: go ks'
                end
            end) kids)
  end.
Fixpoint on_head (f : list node -> list node) (s : BeautifulSoup) : BeautifulSoup :=
  match s with
  | [] => []
  | n :: s' =>
      match node_find_head n with
      | Some _ => node_on_head f n :: s'
      | None => n :: on_head f s'
      end
  end.

(** [tag.append(x)] and [tag.insert(0, x)] on the children of [tag]. *)
Definition append (x : node) (kids : list node) : list node := kids ++ [x].
Definition insert0 (x : node) (kids : list node) : list node := x :: kids.

End Bs4.

(** ** The world of a run

    [visited] is the module-level set of [crawl.py]; [files] is the content
    of the files this run has written so far, by path (what the output
    directory held before the run is not part of it); [trace] is the list
    of calls made to the browser, oldest first, a call that raised
    included.  Console output is left out. *)

Inductive event : Type :=
| NewContext
| NewPage
| Goto (url : string) (timeout : N)
| WaitForTimeout (ms : N)
| Evaluate
| Content
| CloseContext.

#[global] Instance event_eq_dec : EqDecision event.
Proof. solve_decision. Defined.

Record world : Type := mkWorld {
  visited : gset string;
  files : gmap string string;
  trace : list event
}.

(** The calls [crawl_page] makes to the browser besides [page.goto]. *)
Inductive call_site : Type :=
| AtNewContext      (* browser.new_context(...) *)
| AtNewPage         (* context.new_page() *)
| AtFallbackWait    (* page.wait_for_timeout(5000), in the except clause *)
| AtSettleWait      (* page.wait_for_timeout(2000) *)
| AtEvaluate        (* page.evaluate(...) *)
| AtContent         (* page.content() *)
| AtClose.          (* context.close() *)

(** The rendering engine: what [page.goto] raises for a URL, if anything,
    what [page.evaluate] and [page.content] return when they return, and
    what each of the other calls made while crawling a URL raises, if
    anything. *)
Class Browser : Type := {
  goto : string -> option playwright_exn;
  page_styles : string -> string;
  page_content : string -> string;
  call_raises : call_site -> string -> option exn
}.

(** The file system: what [open(path, "w")] and [f.write(content)] raise,
    if anything. *)
Class FileSystem : Type := {
  open_raises : string -> string -> option exn
}.

Definition M (A : Type) : Type := world -> result A * world.

#[global] Instance M_ret : MRet M := fun A a w => (Ok a, w).
#[global] Instance M_bind : MBind M := fun A B f m w =>
  match m w with
  | (Ok a, w') => f a w'
  | (Raise e, w') => (Raise e, w')
  end.

Definition lift {A} (r : result A) : M A := fun w => (r, w).
Definition raise {A} (e : exn) : M A := fun w => (Raise e, w).

(** [try: m  except Exception: h] *)
Definition try_except {A} (m : M A) (h : exn -> M A) : M A := fun w =>
  match m w with
  | (Ok a, w') => (Ok a, w')
  | (Raise e, w') => h e w'
  end.

Definition get_visited : M (gset string) := fun w => (Ok (visited w), w).
Definition visited_add (url : string) : M unit := fun w =>
  (Ok tt, mkWorld ({[url]} ∪ visited w) (files w) (trace w)).
Definition emit (e : event) : M unit := fun w =>
  (Ok tt, mkWorld (visited w) (files w) (trace w ++ [e])).
(** What a write that succeeds does: the file at [path] holds [content]. *)
Definition write_file (path content : string) : M unit := fun w =>
  (Ok tt, mkWorld (visited w) (<[path := content]> (files w)) (trace w)).
(** [with open(path, "w", encoding="utf-8") as f: f.write(content)] *)
Definition save_file `{FileSystem} (path content : string) : M unit :=
  match open_raises path content with
  | Some e => raise e
  | None => write_file path content
  end.

(** [os.path.join(a, b)] of [posixpath]; [ntpath] differs in the separator
    and in names that hold a drive or start with a backslash. *)
Fixpoint last_char (s : string) : option ascii :=
  match s with
  | EmptyString => None
  | String c s' =>
      match last_char s' with
      | Some d => Some d
      | None => Some c
      end
  end.
Definition os_path_join (a b : string) : string :=
  if Str.startswith "/" b then b
  else if Str.is_empty a || bool_decide (last_char a = Some "/"%char)
       then a ++ b
       else a ++ String "/" b.

Section Crawl.
Context `{Urllib} `{HtmlParser} `{Browser} `{FileSystem}.

(** [full.split("?")[0].split("#")[0]] *)
Definition strip_query_fragment (full : string) : string :=
  Str.split_head "#" (Str.split_head "?" full).

(** [urljoin(current_url, href)] with the query string and the fragment
    stripped. *)
Definition resolve (current_url href : string) : result string :=
  full ← Url.urljoin current_url href;
  Ok (strip_query_fragment full).

(** The loop of [extract_internal_links] over the anchors found. *)
Fixpoint extract_loop (current_url : string) (hrefs : list string)
    (links : gset string) : M (gset string) :=
  match hrefs with
  | [] => mret links
  | href :: hrefs' =>
      full ← lift (resolve current_url href);
      v ← get_visited;
      if is_internal full && bool_decide (full ∉ v)
      then extract_loop current_url hrefs' ({[full]} ∪ links)
      else extract_loop current_url hrefs' links
  end.

Definition extract_internal_links (html current_url : string)
  : M (gset string) :=
  soup ← lift (new_soup html);
  extract_loop current_url (Bs4.hrefs soup) ∅.

(** The body of the loop of [rewrite_internal_links], on the attributes of
    an [a] tag that has an [href]. *)
Definition rewrite_href (current_url href : string)
    (attrs : list (string * string)) : result (list (string * string)) :=
  full ← resolve current_url href;
  if is_internal full
  then filename ← url_to_filename full; Ok (Bs4.set "href" filename attrs)
  else Ok attrs.

(** The loop of [rewrite_internal_links]: the tags are visited in document
    order, a tag before its children. *)
Fixpoint rewrite_node (current_url : string) (n : node) : result node :=
  match n with
  | NavigableString _ _ => Ok n
  | Tag name attrs kids =>
      attrs' ← match Bs4.is_anchor n with
               | Some href => rewrite_href current_url href attrs
               | None => Ok attrs
               end;
      kids' ← mapM (rewrite_node current_url) kids;
      Ok (Tag name attrs' kids')
  end.
Definition rewrite_soup (current_url : string) (soup : BeautifulSoup)
  : result BeautifulSoup :=
  mapM (rewrite_node current_url) soup.

Definition rewrite_internal_links (html current_url : string)
  : result string :=
  soup ← new_soup html;
  soup' ← rewrite_soup current_url soup;
  Ok (serialize soup').

(** Lines 107 to 126 of [crawl_page]: the document written for a page. *)
Definition style_tag (styles : string) : node :=
  Tag "style" [] [NavigableString PlainString styles].
Definition base_tag : node :=
  Tag "base" [("href", "https://sites.google.com")] [].

Definition inject (styles : string) (soup : BeautifulSoup) : BeautifulSoup :=
  let soup :=
    match Bs4.head soup with
    | Some _ => Bs4.on_head (Bs4.append (style_tag styles)) soup
    | None => soup
    end in
  match Bs4.head soup with
  | Some _ => Bs4.on_head (Bs4.insert0 base_tag) soup
  | None => soup
  end.

Definition materialize (html_content styles url : string) : result string :=
  soup ← new_soup html_content;
  let soup := Bs4.remove_stylesheets soup in
  let soup := inject styles soup in
  rewrite_internal_links (serialize soup) url.

(** [page.goto(url, wait_until="networkidle", timeout=30000)] *)
Definition page_goto (url : string) : M unit :=
  _ ← emit (Goto url 30000%N);
  match goto url with
  | Some e => raise (Playwright e)
  | None => mret tt
  end.
(** A call to the browser other than [page.goto], made while crawling
    [url]: it is recorded, and raises what the browser says. *)
Definition browser_call (site : call_site) (url : string) (e : event)
  : M unit :=
  _ ← emit e;
  match call_raises site url with
  | Some x => raise x
  | None => mret tt
  end.

Definition crawl_page (url : string) : M (gset string) :=
  filename ← lift (url_to_filename url);
  _ ← browser_call AtNewContext url NewContext;
  _ ← browser_call AtNewPage url NewPage;
  _ ← try_except (page_goto url)
        (fun _ => browser_call AtFallbackWait url (WaitForTimeout 5000%N));
  _ ← browser_call AtSettleWait url (WaitForTimeout 2000%N);
  _ ← browser_call AtEvaluate url Evaluate;
  let styles := page_styles url in
  _ ← browser_call AtContent url Content;
  let html_content := page_content url in
  _ ← browser_call AtClose url CloseContext;
  new_links ← extract_internal_links html_content url;
  final_html ← lift (materialize html_content styles url);
  let filepath := os_path_join OUTPUT_DIR filename in
  _ ← save_file filepath final_html;
  mret new_links.

(** One turn of the [while queue:] loop of [main], for the [url] that
    [queue.pop()] returns. *)
Definition loop_body (url : string) (queue : gset string)
  : M (gset string) :=
  let queue := queue ∖ {[url]} in
  v ← get_visited;
  if bool_decide (url ∈ v) then mret queue
  else
    _ ← visited_add url;
    new_links ← crawl_page url;
    v ← get_visited;
    mret (queue ∪ filter (fun link => link ∉ v) new_links).

(** The state of [main] at a test of the loop condition, or after an
    exception left the loop. *)
Inductive config : Type :=
| Running (queue : gset string) (w : world)
| Crashed (e : exn) (w : world).

(** [queue.pop()] removes and returns an arbitrary element. *)
Inductive step : config -> config -> Prop :=
| step_ok url queue w queue' w' :
    url ∈ queue ->
    loop_body url queue w = (Ok queue', w') ->
    step (Running queue w) (Running queue' w')
| step_raise url queue w e w' :
    url ∈ queue ->
    loop_body url queue w = (Raise e, w') ->
    step (Running queue w) (Crashed e w').

(** The start of a run in an empty output directory: nothing visited, no
    file, no call made; [queue = {START_PAGE}]. *)
Definition initial_world : world := mkWorld ∅ ∅ [].
Definition initial : config := Running {[START_PAGE]} initial_world.

(** The start of a run in an output directory that holds [files0]:
    [os.makedirs(OUTPUT_DIR, exist_ok=True)] keeps what is there. *)
Definition initial_in (files0 : gmap string string) : config :=
  Running {[START_PAGE]} (mkWorld ∅ files0 []).

(** [n] turns of the loop. *)
Inductive steps : nat -> config -> config -> Prop :=
| steps_O c : steps 0 c c
| steps_S n c1 c2 c3 : steps n c1 c2 -> step c2 c3 -> steps (S n) c1 c3.

(** After the loop: [home.html] is renamed to [index.html], on the files
    of the run, with the [os.rename] of POSIX, which replaces an index file
    (the one of Windows raises when there is one). *)
Definition rename_home (w : world) : world :=
  let home := os_path_join OUTPUT_DIR "home.html" in
  let index := os_path_join OUTPUT_DIR "index.html" in
  match files w !! home with
  | Some content =>
      mkWorld (visited w) (<[index := content]> (delete home (files w)))
              (trace w)
  | None => w
  end.

End Crawl.

(** ** The local filename, in the words of the specification *)

Module Spec.

(** The path segment that distinguishes the site root. *)
Definition site_segment : string := "/view/spc-student-it-club".

(** [Removed seg s r]: [r] is [s] with the occurrences of [seg] taken out,
    found from the left and not overlapping. *)
Inductive Removed (seg : string) : string -> string -> Prop :=
| Removed_end : Removed seg "" ""
| Removed_hit t r : Removed seg t r -> Removed seg (seg ++ t) r
| Removed_miss c s r :
    Str.startswith seg (String c s) = false ->
    Removed seg s r -> Removed seg (String c s) (String c r).

Definition is_slash (c : ascii) : bool := Ascii.eqb c "/".

Definition head_ok (t : string) : Prop :=
  match t with
  | String c _ => is_slash c = false
  | EmptyString => True
  end.
Definition last_ok (t : string) : Prop :=
  match last_char t with
  | Some c => is_slash c = false
  | None => True
  end.

(** [Trimmed s t]: [t] is [s] without its leading and trailing slashes. *)
Definition Trimmed (s t : string) : Prop :=
  exists a b, s = a ++ t ++ b /\
    Str.forallb is_slash a = true /\ Str.forallb is_slash b = true /\
    head_ok t /\ last_ok t.

(** Every slash left becomes an underscore. *)
Definition underscored (s : string) : string :=
  Str.map (fun c => if is_slash c then "_"%char else c) s.

(** The Local Filename of a URL whose path is [path]. *)
Definition toLocalFilename (path filename : string) : Prop :=
  exists residual trimmed,
    Removed site_segment path residual /\
    Trimmed residual trimmed /\
    filename =
      (if Str.is_empty trimmed then "home" else underscored trimmed) ++ ".html".

(** [Stripped raw u]: [u] is [raw] without its query string and its
    fragment, that is, [raw] up to its first "?" or "#". *)
Definition Stripped (raw u : string) : Prop :=
  exists rest,
    raw = u ++ rest /\
    Str.mem "?" u = false /\ Str.mem "#" u = false /\
    match rest with
    | EmptyString => True
    | String c _ => c = "?"%char \/ c = "#"%char
    end.

(** [Internal u]: [u] starts with the site root. *)
Definition Internal (u : string) : Prop :=
  exists rest,
    u = "https://sites.google.com/view/spc-student-it-club" ++ rest.

End Spec.

(** ** What link rewriting relates

    [skeleton] blanks the [href] of every [a] tag: what is left is the
    content of the document that is not an anchor reference. *)

Definition blank_href (attrs : list (string * string))
  : list (string * string) :=
  map (fun kv => if String.eqb (fst kv) "href" then (fst kv, "") else kv)
      attrs.

Fixpoint skeleton (n : node) : node :=
  match n with
  | NavigableString _ _ => n
  | Tag name attrs kids =>
      Tag name (if String.eqb name "a" then blank_href attrs else attrs)
          (map skeleton kids)
  end.

(** [rewritten current_url href href']: [href'] is what the rewriter leaves
    in an anchor that held [href].  The reference resolves to [raw]; when
    [raw], stripped of query string and fragment, is internal, [href'] is
    its filename, and differs from both absolute forms; otherwise [href']
    is [href], untouched. *)
Definition rewritten `{Urllib} (current_url href href' : string) : Prop :=
  exists raw,
    Url.urljoin current_url href = Ok raw /\
    let full := strip_query_fragment raw in
    if is_internal full
    then url_to_filename full = Ok href' /\ href' <> full /\ href' <> raw
    else href' = href.

(** The internal URLs of [fulls] that are not in [v], as a set. *)
Definition unvisited_internal (v : gset string) (fulls : list string)
  : gset string :=
  list_to_set (filter (fun u => is_internal u = true /\ u ∉ v) fulls).

(** ** Observations on a run *)

Definition world_of (c : config) : world :=
  match c with
  | Running _ w => w
  | Crashed _ w => w
  end.

(** The URLs [page.goto] was called with, oldest first. *)
Fixpoint fetched (tr : list event) : list string :=
  match tr with
  | [] => []
  | Goto url _ :: tr' => url :: fetched tr'
  | _ :: tr' => fetched tr'
  end.

(** What holds at every test of the loop condition, and after a crash. *)
Definition invariant (c : config) : Prop :=
  NoDup (fetched (trace (world_of c))) /\
  (forall url, url ∈ fetched (trace (world_of c)) ->
               url ∈ visited (world_of c)) /\
  match c with
  | Running queue w => queue ## visited w
  | Crashed _ _ => True
  end.

(** The events of a list of calls up to and with the first that raises,
    and what it raises. *)
Fixpoint run_calls (calls : list (event * option exn))
  : list event * option exn :=
  match calls with
  | [] => ([], None)
  | (ev, Some e) :: _ => ([ev], Some e)
  | (ev, None) :: calls' =>
      let '(evs, raised) := run_calls calls' in (ev :: evs, raised)
  end.

Section Page.
Context `{Urllib} `{HtmlParser} `{Browser} `{FileSystem}.

(** The calls [crawl_page] makes to the browser for [url], in order, each
    with what leaves it: the exception of [page.goto] is caught, and the
    fallback wait is made when there is one. *)
Definition fetch_calls (url : string) : list (event * option exn) :=
  [(NewContext, call_raises AtNewContext url);
   (NewPage, call_raises AtNewPage url);
   (Goto url 30000%N, None)]
  ++ match goto url with
     | Some _ => [(WaitForTimeout 5000%N, call_raises AtFallbackWait url)]
     | None => []
     end
  ++ [(WaitForTimeout 2000%N, call_raises AtSettleWait url);
      (Evaluate, call_raises AtEvaluate url);
      (Content, call_raises AtContent url);
      (CloseContext, call_raises AtClose url)].

(** The anchors of the page at [url], resolved and stripped. *)
Definition page_links (url : string) : result (list string) :=
  mapM (resolve url) (Bs4.hrefs (parse (page_content url))).

(** The document written for the page at [url]. *)
Definition page_document (url : string) : result string :=
  materialize (page_content url) (page_styles url) url.



End Page.

(** A computation that raises nothing but [ValueError]. *)
Definition only_ValueError {A} (r : result A) : Prop :=
  forall e, r = Raise e -> e = ValueError.

(** ** More observations on documents and runs *)

(** Every node of a document in document order, each before its children:
    what [find_all] walks over. *)
Fixpoint node_descendants (n : node) : list node :=
  match n with
  | NavigableString _ _ => [n]
  | Tag _ _ kids => n :: flat_map node_descendants kids
  end.
Definition descendants (soup : BeautifulSoup) : list node :=
  flat_map node_descendants soup.

Section Site.
Context `{Urllib} `{HtmlParser} `{Browser} `{FileSystem}.

(** The pages of the site as the crawler sees it: the start page, and every
    internal target of an anchor of a page. *)
Inductive reachable_page : string -> Prop :=
| reachable_start : reachable_page START_PAGE
| reachable_link url fulls full :
    reachable_page url ->
    page_links url = Ok fulls ->
    full ∈ fulls ->
    is_internal full = true ->
    reachable_page full.

(** The path of the file [crawl_page] writes for [url]. *)
Definition filepath_of (url : string) : option string :=
  match url_to_filename url with
  | Ok filename => Some (os_path_join OUTPUT_DIR filename)
  | Raise _ => None
  end.

(** What holds after [n] turns of a run that started in a directory
    holding [files0], besides [invariant]: the pages seen are pages of the
    site, one page was visited per turn and at most one fetch made, a file
    is the file of a visited page or is as it was before the run, and,
    while the loop runs, one fetch was made per turn, every visited page
    has its file and its internal links are queued or visited. *)
Definition crawl_invariant (files0 : gmap string string) (n : nat)
    (c : config) : Prop :=
  let w := world_of c in
  (START_PAGE ∈ visited w \/ c = initial_in files0) /\
  (forall u, u ∈ visited w -> reachable_page u) /\
  size (visited w) = n /\
  (length (fetched (trace w)) <= n)%nat /\
  (forall path, (exists u, u ∈ visited w /\ filepath_of u = Some path) \/
                files w !! path = files0 !! path) /\
  (size (dom (files w)) <= n + size (dom files0))%nat /\
  match c with
  | Running queue w =>
      (forall u, u ∈ queue -> reachable_page u) /\
      length (fetched (trace w)) = n /\
      (forall u, u ∈ visited w ->
         exists path, filepath_of u = Some path /\ is_Some (files w !! path)) /\
      (forall u, u ∈ visited w ->
         exists fulls, page_links u = Ok fulls /\
           forall full, full ∈ fulls -> is_internal full = true ->
                        full ∈ queue ∪ visited w)
  | Crashed _ _ => True
  end.

End Site.

(** ** Instances for the examples

    [absolute_refs] accepts every bracketed or non-ASCII netloc and resolves
    absolute references only, which [urljoin] returns as they are. *)

Definition absolute_refs : Urllib := {|
  check_bracketed_netloc := fun _ => true;
  checknetloc_nfkc := fun _ => true;
  resolve_reference := fun base url => url
|}.

(** [anchors_only] is a markup made of references separated by whitespace:
    each one parses to an anchor, and a document is written back as its
    references, separated by spaces. *)

Definition anchors_only : HtmlParser := {|
  parse_raises := fun _ => None;
  parse := fun markup =>
    map (fun href => Tag "a" [("href", href)] []) (Bs4.attr_tokens markup);
  serialize := fun soup => String.concat " " (Bs4.hrefs soup)
|}.

(** [two_pages] is the site of two pages of the specification's scenario:
    the start page links to the about page, with a query string and a
    fragment, and to another site; the about page links back.  Only the
    start page loads in time. *)

Definition ABOUT_PAGE : string := BASE_URL ++ "/about".

Definition two_pages : Browser := {|
  goto := fun url =>
    if String.eqb url START_PAGE then None else Some PwTimeoutError;
  page_styles := fun _ => "body { margin: 0 }";
  page_content := fun url =>
    if String.eqb url START_PAGE
    then ABOUT_PAGE ++ "?ref=1#top https://external.example/?ref=1"
    else if String.eqb url ABOUT_PAGE then START_PAGE
    else "";
  call_raises := fun _ _ => None
|}.

(** [malformed_link] serves, for every URL, a page whose one anchor has a
    reference with an unmatched bracket, which [urlparse] rejects; only the
    start page loads in time. *)


(** [broken_branch] is a closed site of three pages: the start page links
    to the about page and to the events page, the events page links back,
    and the one anchor of the about page has a reference with an unmatched
    bracket.  Every page loads in time. *)

Definition EVENTS_PAGE : string := BASE_URL ++ "/events".

Definition broken_branch : Browser := {|
  goto := fun _ => None;
  page_styles := fun _ => "";
  page_content := fun url =>
    if String.eqb url START_PAGE then ABOUT_PAGE ++ " " ++ EVENTS_PAGE
    else if String.eqb url ABOUT_PAGE then "//["
    else if String.eqb url EVENTS_PAGE then START_PAGE
    else "";
  call_raises := fun _ _ => None
|}.


(** [no_context] is a browser that opens no context. *)

Definition no_context : Browser := {|
  goto := fun _ => None;
  page_styles := fun _ => "";
  page_content := fun _ => "";
  call_raises := fun site _ =>
    match site with
    | AtNewContext => Some (Playwright PwError)
    | _ => None
    end
|}.

(** [writable] is a file system on which every write succeeds. *)

Definition writable : FileSystem := {|
  open_raises := fun _ _ => None
|}.

(** The run of [main] on [two_pages] after its first turn, and the pages of
    the site. *)

Definition after_start_page : config :=
  Running {[ABOUT_PAGE]}
    (mkWorld {[START_PAGE]}
       {["spc-site/home.html" := "about.html https://external.example/?ref=1"]}
       [NewContext; NewPage; Goto START_PAGE 30000%N;
        WaitForTimeout 2000%N; Evaluate; Content; CloseContext]).

Definition two_pages_site : gset string := {[START_PAGE; ABOUT_PAGE]}.

(** The run of [main] on [two_pages] when the loop ends. *)
Definition after_about_page : config :=
  Running ∅
    (mkWorld {[START_PAGE; ABOUT_PAGE]}
       {["spc-site/home.html" := "about.html https://external.example/?ref=1";
         "spc-site/about.html" := "home.html"]}
       [NewContext; NewPage; Goto START_PAGE 30000%N;
        WaitForTimeout 2000%N; Evaluate; Content; CloseContext;
        NewContext; NewPage; Goto ABOUT_PAGE 30000%N; WaitForTimeout 5000%N;
        WaitForTimeout 2000%N; Evaluate; Content; CloseContext]).

(** An output directory that holds a file of an earlier run, and the run
    of [main] on [two_pages] in it when the loop ends. *)
Definition stale_directory : gmap string string :=
  {["spc-site/contact.html" := "home.html"]}.

Definition after_rerun : config :=
  Running ∅
    (mkWorld {[START_PAGE; ABOUT_PAGE]}
       {["spc-site/contact.html" := "home.html";
         "spc-site/home.html" := "about.html https://external.example/?ref=1";
         "spc-site/about.html" := "home.html"]}
       [NewContext; NewPage; Goto START_PAGE 30000%N;
        WaitForTimeout 2000%N; Evaluate; Content; CloseContext;
        NewContext; NewPage; Goto ABOUT_PAGE 30000%N; WaitForTimeout 5000%N;
        WaitForTimeout 2000%N; Evaluate; Content; CloseContext]).

(** * Properties *)

(** ** Strings *)

Module StrFacts.

Lemma startswith_app (a s : string) :
  Str.startswith a s = true <-> exists t, s = a ++ t.
Proof.
  revert s. induction a as [|c a IH]; intros s; simpl.
  - split; [intros _; exists s; reflexivity | reflexivity].
  - destruct s as [|d s].
    + split; [discriminate | intros [t Ht]; discriminate].
    + rewrite andb_true_iff, IH. split.
      * intros [Hc [t ->]]. apply Ascii.eqb_eq in Hc as ->. eauto.
      * intros [t Ht]. injection Ht as -> ->. rewrite Ascii.eqb_refl. eauto.
Qed.

Lemma startswith_self_app (a t : string) : Str.startswith a (a ++ t) = true.
Proof. apply startswith_app. eauto. Qed.

Lemma append_nil_r (s : string) : s ++ "" = s.
Proof. induction s; simpl; congruence. Qed.

Lemma append_assoc (a b c : string) : (a ++ b) ++ c = a ++ (b ++ c).
Proof. induction a; simpl; congruence. Qed.

Lemma replace_from_skip (old new a s : string) :
  Str.replace_from old new (String.length a) (a ++ s)
  = Str.replace_from old new 0 s.
Proof. induction a as [|c a IH]; simpl; [destruct s|]; auto. Qed.

(** A found occurrence is dropped whole and the scan goes on after it. *)
Lemma replace_from_hit (c : ascii) (old new t : string) :
  Str.replace_from (String c old) new 0 (String c old ++ t)
  = new ++ Str.replace_from (String c old) new 0 t.
Proof.
  cbn [append Str.replace_from].
  change (Str.startswith (String c old) (String c (old ++ t)))
    with (Str.startswith (String c old) (String c old ++ t)).
  rewrite startswith_self_app. f_equal.
  replace (String.length (String c old) - 1)%nat with (String.length old)
    by (cbn [String.length]; lia).
  apply replace_from_skip.
Qed.

Lemma replace_from_miss (old new : string) (c : ascii) (s : string) :
  Str.startswith old (String c s) = false ->
  Str.replace_from old new 0 (String c s)
  = String c (Str.replace_from old new 0 s).
Proof. intros Hp. cbn [Str.replace_from]. now rewrite Hp. Qed.

Lemma length_app (a b : string) :
  String.length (a ++ b) = (String.length a + String.length b)%nat.
Proof. induction a; simpl; auto. Qed.

(** Replacing one character by another is a map over the characters. *)
Lemma replace_char (c d : ascii) (s : string) :
  Str.replace (String c "") (String d "") s
  = Str.map (fun x => if Ascii.eqb x c then d else x) s.
Proof.
  unfold Str.replace. simpl Str.is_empty. cbv iota.
  induction s as [|x s IH]; [reflexivity|].
  cbn [Str.replace_from Str.map Str.startswith String.length Nat.sub].
  rewrite andb_true_r, (Ascii.eqb_sym c x).
  destruct (Ascii.eqb x c); cbn [append]; now rewrite IH.
Qed.

Lemma mem_map_replace (c d : ascii) (s : string) :
  c <> d ->
  Str.mem c (Str.map (fun x => if Ascii.eqb x c then d else x) s) = false.
Proof.
  intros Hcd. induction s as [|x s IH]; [reflexivity|].
  cbn [Str.map Str.mem]. rewrite IH, orb_false_r.
  destruct (Ascii.eqb_spec x c) as [->|Hx].
  - now apply Ascii.eqb_neq.
  - apply Ascii.eqb_neq. congruence.
Qed.

Lemma mem_app (c : ascii) (a b : string) :
  Str.mem c (a ++ b) = Str.mem c a || Str.mem c b.
Proof. induction a as [|x a IH]; simpl; [reflexivity|]. now rewrite IH, orb_assoc. Qed.

End StrFacts.

Module SpecFacts.
Import StrFacts Spec.

Lemma Removed_replace (seg s r : string) :
  Str.is_empty seg = false ->
  Removed seg s r -> r = Str.replace seg "" s.
Proof.
  intros Hseg HR. unfold Str.replace. rewrite Hseg.
  destruct seg as [|c0 seg]; [discriminate|].
  induction HR as [|t r _ IH|c s r Hp _ IH].
  - reflexivity.
  - now rewrite replace_from_hit.
  - rewrite replace_from_miss by assumption. now f_equal.
Qed.

Lemma replace_Removed_len (seg : string) (n : nat) : forall s,
  Str.is_empty seg = false ->
  (String.length s <= n)%nat ->
  Removed seg s (Str.replace_from seg "" 0 s).
Proof.
  induction n as [|n IH]; intros s Hseg Hn.
  - destruct s; [constructor | simpl in Hn; lia].
  - destruct s as [|c s]; [constructor|].
    destruct (Str.startswith seg (String c s)) eqn:Hp.
    + apply startswith_app in Hp as [t Ht]. rewrite Ht.
      destruct seg as [|c0 seg]; [discriminate|].
      rewrite replace_from_hit. cbn [append].
      change (String c0 (seg ++ t)) with (String c0 seg ++ t).
      constructor. apply IH; [reflexivity|].
      rewrite Ht in Hn. cbn [append String.length] in Hn.
      rewrite length_app in Hn. lia.
    + rewrite replace_from_miss by assumption. constructor; [assumption|].
      apply IH; [assumption | simpl in Hn; lia].
Qed.

Lemma Removed_iff (seg s r : string) :
  Str.is_empty seg = false ->
  Removed seg s r <-> r = Str.replace seg "" s.
Proof.
  intros Hseg. split; [now apply Removed_replace|].
  intros ->. unfold Str.replace. rewrite Hseg.
  now apply (replace_Removed_len seg (String.length s)).
Qed.

Section strip.
Variable p : ascii -> bool.

Lemma lstrip_app_all (a x : string) :
  Str.forallb p a = true -> Str.lstrip p (a ++ x) = Str.lstrip p x.
Proof.
  induction a as [|c a IH]; [reflexivity|]. cbn [Str.forallb append Str.lstrip].
  intros [Hc Ha]%andb_true_iff. rewrite Hc. auto.
Qed.

Lemma lstrip_all (a : string) :
  Str.forallb p a = true -> Str.lstrip p a = "".
Proof.
  induction a as [|c a IH]; [reflexivity|]. cbn [Str.forallb Str.lstrip].
  intros [Hc Ha]%andb_true_iff. rewrite Hc. auto.
Qed.

Lemma rstrip_all (b : string) :
  Str.forallb p b = true -> Str.rstrip p b = "".
Proof.
  induction b as [|c b IH]; [reflexivity|]. cbn [Str.forallb Str.rstrip].
  intros [Hc Hb]%andb_true_iff. rewrite IH, Hc by assumption. reflexivity.
Qed.

Lemma rstrip_app_all (t b : string) :
  Str.forallb p b = true -> Str.rstrip p (t ++ b) = Str.rstrip p t.
Proof.
  intros Hb. induction t as [|c t IH]; cbn [append Str.rstrip].
  - now apply rstrip_all.
  - now rewrite IH.
Qed.

Lemma rstrip_last (t : string) :
  match last_char t with Some c => p c = false | None => True end ->
  Str.rstrip p t = t.
Proof.
  induction t as [|c t IH]; [reflexivity|]. cbn [last_char Str.rstrip].
  destruct (last_char t) as [d|] eqn:Hl.
  - intros Hd. rewrite IH by assumption.
    destruct t; [discriminate|]. reflexivity.
  - intros Hc. destruct t as [|d t].
    + cbn. now rewrite Hc.
    + cbn [last_char] in Hl. destruct (last_char t); discriminate.
Qed.

Lemma lstrip_split (s : string) :
  exists a, s = a ++ Str.lstrip p s /\ Str.forallb p a = true /\
    match Str.lstrip p s with String c _ => p c = false | "" => True end.
Proof.
  induction s as [|c s (a & Hs & Ha & Hh)].
  - exists ""; cbn; repeat split; auto.
  - cbn [Str.lstrip]. destruct (p c) eqn:Hc.
    + exists (String c a). cbn [append Str.forallb].
      rewrite <- Hs, Hc, Ha. auto.
    + exists ""; cbn; repeat split; auto.
Qed.

Lemma rstrip_split (s : string) :
  exists b, s = Str.rstrip p s ++ b /\ Str.forallb p b = true /\
    match last_char (Str.rstrip p s) with
    | Some c => p c = false
    | None => True
    end.
Proof.
  induction s as [|c s (b & Hs & Hb & Hl)].
  - exists ""; cbn; repeat split; auto.
  - cbn [Str.rstrip]. destruct (Str.rstrip p s) as [|d r] eqn:Hr.
    + cbn [Str.is_empty andb]. destruct (p c) eqn:Hc.
      * exists (String c b). cbn [append] in Hs. subst s.
        cbn [append Str.forallb last_char]. rewrite Hc, Hb. auto.
      * exists b. cbn [append] in Hs. subst s.
        cbn [append last_char]. auto.
    + cbn [Str.is_empty andb]. exists b.
      change (String c (String d r) ++ b) with (String c (String d r ++ b)).
      rewrite <- Hs. repeat split; [assumption|].
      cbn [last_char] in *. destruct (last_char r); assumption.
Qed.

Lemma rstrip_head (s : string) :
  match s with String c _ => p c = false | "" => True end ->
  match Str.rstrip p s with String c _ => p c = false | "" => True end.
Proof.
  destruct s as [|c s]; [auto|]. cbn [Str.rstrip]. intros Hc.
  rewrite Hc, andb_false_r. assumption.
Qed.
End strip.

Lemma mem_slash (c : ascii) : Str.mem c "/" = is_slash c.
Proof. unfold is_slash. cbn. apply orb_false_r. Qed.

Lemma strip_slash (s : string) :
  Str.strip "/" s = Str.rstrip is_slash (Str.lstrip is_slash s).
Proof.
  unfold Str.strip.
  assert (Hl : forall x, Str.lstrip (fun c => Str.mem c "/") x
                         = Str.lstrip is_slash x).
  { induction x as [|c x IH]; [reflexivity|]. cbn [Str.lstrip].
    now rewrite mem_slash, IH. }
  assert (Hr : forall x, Str.rstrip (fun c => Str.mem c "/") x
                         = Str.rstrip is_slash x).
  { induction x as [|c x IH]; [reflexivity|]. cbn [Str.rstrip].
    now rewrite mem_slash, IH. }
  now rewrite Hl, Hr.
Qed.

Lemma Trimmed_iff (s t : string) : Trimmed s t <-> t = Str.strip "/" s.
Proof.
  rewrite strip_slash. split.
  - intros (a & b & -> & Ha & Hb & Hh & Hl).
    rewrite lstrip_app_all by assumption.
    destruct t as [|c t].
    + cbn [append]. now rewrite lstrip_all, ?rstrip_all.
    + cbn [append Str.lstrip]. cbn in Hh. rewrite Hh.
      change (String c (t ++ b)) with (String c t ++ b).
      rewrite rstrip_app_all by assumption. symmetry. now apply rstrip_last.
  - intros ->.
    destruct (lstrip_split is_slash s) as (a & Hs & Ha & Hh).
    destruct (rstrip_split is_slash (Str.lstrip is_slash s))
      as (b & Hs' & Hb & Hl).
    exists a, b. repeat split; try assumption.
    + now rewrite <- Hs', <- Hs.
    + now apply rstrip_head.
Qed.

Lemma underscored_replace (s : string) :
  underscored s = Str.replace "/" "_" s.
Proof. now rewrite replace_char. Qed.

(** The words of the specification pin down one filename for a path: the
    one [url_to_filename] computes from it. *)
Lemma toLocalFilename_iff (path f : string) :
  toLocalFilename path f <->
  f = (let p := Str.replace "/" "_"
                  (Str.strip "/" (Str.replace site_segment "" path)) in
       if Str.is_empty p then "home" else p) ++ ".html".
Proof.
  unfold toLocalFilename. split.
  - intros (r & t & HR & HT & ->).
    apply Removed_iff in HR as ->; [|reflexivity].
    apply Trimmed_iff in HT as ->.
    cbv zeta. rewrite <- underscored_replace.
    destruct (Str.strip _ _); reflexivity.
  - intros ->. eexists _, _. split; [|split].
    + apply Removed_iff; reflexivity.
    + apply Trimmed_iff; reflexivity.
    + cbv zeta. rewrite <- underscored_replace.
      destruct (Str.strip _ _); reflexivity.
Qed.

End SpecFacts.

(** ** The URL classifier *)

Section Classifier.
Context `{Urllib}.

(** C1, as amended.  Where [urlparse] accepts [url], [url_to_filename]
    returns the one filename the specification describes for the path of
    [url]: the site segment removed, leading and trailing slashes stripped,
    the slashes left replaced by underscores, "home" for an empty residual,
    ".html" appended.  Where [urlparse] raises, [url_to_filename] raises the
    same exception.  Equal arguments give equal results. *)
Theorem url_to_filename_spec (url : string) :
  match Url.urlparse_path url with
  | Ok path =>
      exists filename,
        url_to_filename url = Ok filename /\
        Spec.toLocalFilename path filename /\
        (forall f, Spec.toLocalFilename path f -> f = filename)
  | Raise e => url_to_filename url = Raise e
  end /\
  (forall url', url' = url -> url_to_filename url' = url_to_filename url).
Proof.
  split; [|now intros ? ->].
  unfold url_to_filename. destruct (Url.urlparse_path url) as [path|e].
  - cbn [mbind result_bind]. eexists. split; [reflexivity|].
    split.
    + now apply SpecFacts.toLocalFilename_iff.
    + intros f Hf. now apply SpecFacts.toLocalFilename_iff in Hf.
  - reflexivity.
Qed.

(** C9.  The bare site root and the start page are two distinct internal
    canonical URLs with the filename "home.html", so the file written for
    one replaces the file written for the other. *)
Theorem url_to_filename_not_injective :
  BASE_URL <> START_PAGE /\
  is_internal BASE_URL = true /\ is_internal START_PAGE = true /\
  strip_query_fragment BASE_URL = BASE_URL /\
  strip_query_fragment START_PAGE = START_PAGE /\
  url_to_filename BASE_URL = Ok "home.html" /\
  url_to_filename START_PAGE = Ok "home.html" /\
  (forall (w : world) (page1 page2 : string),
     let path := os_path_join OUTPUT_DIR "home.html" in
     let w1 := snd (write_file path page1 w) in
     let w2 := snd (write_file path page2 w1) in
     files w2 = <[path := page2]> (files w)).
Proof.
  repeat split; try reflexivity.
  - discriminate.
  - intros w page1 page2. cbn. apply insert_insert_eq.
Qed.

Example filename_of_about_page :
  url_to_filename (BASE_URL ++ "/about") = Ok "about.html".
Proof. reflexivity. Qed.

Example filename_of_nested_page :
  url_to_filename (BASE_URL ++ "/events/2024;v=1?page=2") = Ok "events_2024.html".
Proof. reflexivity. Qed.

Example filename_of_other_site :
  url_to_filename "https://external.example/a/view/spc-student-it-club/b"
  = Ok "a_b.html".
Proof. reflexivity. Qed.

End Classifier.

(** C1, as stated, fails: [urlparse] raises [ValueError] on a netloc with an
    unmatched bracket, and [url_to_filename] with it. *)
Lemma url_to_filename_not_total :
  @url_to_filename absolute_refs "//[" = Raise ValueError /\
  ~ (forall (U : Urllib) (url : string), is_Ok (@url_to_filename U url)).
Proof.
  split; [reflexivity|].
  intros Htotal. destruct (Htotal absolute_refs "//[") as [f Hf].
  discriminate Hf.
Qed.

(** ** Internal URLs always have a filename *)

Section Internal.
Context `{Urllib}.

Lemma filter_app (keep : ascii -> bool) (a b : string) :
  Str.filter keep (a ++ b) = Str.filter keep a ++ Str.filter keep b.
Proof.
  induction a as [|c a IH]; [reflexivity|]. cbn [append Str.filter].
  destruct (keep c); cbn [append]; now rewrite IH.
Qed.

(** [urlsplit] on an internal URL: the scheme is "https", the netloc is
    "sites.google.com", and no check of the netloc fails. *)
Lemma urlsplit_internal (url : string) :
  is_internal url = true ->
  exists p q f,
    Url.urlsplit url = Ok (Url.mkSplit "https" "sites.google.com" p q f).
Proof.
  intros [t ->]%StrFacts.startswith_app.
  unfold Url.urlsplit.
  replace (Str.lstrip Url.c0_control_or_space (BASE_URL ++ t))
    with (BASE_URL ++ t) by reflexivity.
  rewrite filter_app.
  set (t' := Str.filter _ t).
  replace (Str.filter (fun c => negb (Url.unsafe_url_byte c)) BASE_URL)
    with BASE_URL by reflexivity.
  replace (Url.split_scheme (BASE_URL ++ t'))
    with ("https", "//sites.google.com/view/spc-student-it-club" ++ t')
    by reflexivity.
  cbv beta iota.
  replace (Str.startswith "//"
             ("//sites.google.com/view/spc-student-it-club" ++ t'))
    with true by reflexivity.
  replace (Url.splitnetloc
             ("//sites.google.com/view/spc-student-it-club" ++ t') 2)
    with ("sites.google.com", "/view/spc-student-it-club" ++ t')
    by reflexivity.
  cbv beta iota.
  replace (Url.check_brackets "sites.google.com") with (Ok tt) by reflexivity.
  cbn [mbind result_bind].
  destruct (Url.split_at "#" _) as [u fragment].
  destruct (Url.split_at "?" u) as [path query].
  replace (Url.checknetloc "sites.google.com") with (Ok tt) by reflexivity.
  cbn [mbind result_bind]. eauto.
Qed.

Lemma urlparse_path_internal (url : string) :
  is_internal url = true -> is_Ok (Url.urlparse_path url).
Proof.
  intros (p & q & f & Hs)%urlsplit_internal.
  unfold Url.urlparse_path. rewrite Hs. cbn [mbind result_bind].
  destruct (_ && _); eexists; reflexivity.
Qed.

Lemma url_to_filename_internal (url : string) :
  is_internal url = true -> is_Ok (url_to_filename url).
Proof.
  intros [path Hp]%urlparse_path_internal.
  unfold url_to_filename. rewrite Hp. eexists. reflexivity.
Qed.

(** A filename holds no slash. *)
Lemma url_to_filename_no_slash (url filename : string) :
  url_to_filename url = Ok filename -> Str.mem "/" filename = false.
Proof.
  unfold url_to_filename.
  destruct (Url.urlparse_path url) as [path|e]; [|discriminate].
  cbn [mbind result_bind]. intros [= <-].
  rewrite StrFacts.mem_app, orb_false_r.
  rewrite StrFacts.replace_char.
  destruct (Str.is_empty _); [reflexivity|].
  now apply StrFacts.mem_map_replace.
Qed.

Lemma is_internal_slash (url : string) :
  is_internal url = true -> Str.mem "/" url = true.
Proof. now intros [t ->]%StrFacts.startswith_app. Qed.

End Internal.

(** ** The exceptions of urllib *)

Section Exceptions.
Context `{Urllib}.

Lemma only_ValueError_Ok {A} (a : A) : only_ValueError (Ok a).
Proof. intros e. discriminate. Qed.

Lemma only_ValueError_Raise {A} : only_ValueError (@Raise A ValueError).
Proof. intros e. now intros [= <-]. Qed.

Lemma only_ValueError_bind {A B} (m : result A) (f : A -> result B) :
  only_ValueError m -> (forall a, only_ValueError (f a)) ->
  only_ValueError (m ≫= f).
Proof.
  intros Hm Hf e. destruct m as [a|e']; cbn [mbind result_bind].
  - apply Hf.
  - intros [= <-]. now apply Hm.
Qed.

Lemma only_ValueError_mapM {A B} (f : A -> result B) (l : list A) :
  (forall a, only_ValueError (f a)) -> only_ValueError (mapM f l).
Proof.
  intros Hf. induction l as [|x l IH]; cbn [mapM].
  - apply only_ValueError_Ok.
  - apply only_ValueError_bind; [apply Hf|]. intros y.
    apply only_ValueError_bind; [apply IH|]. intros k.
    apply only_ValueError_Ok.
Qed.

Lemma urlsplit_raises (url : string) : only_ValueError (Url.urlsplit url).
Proof.
  unfold Url.urlsplit. destruct (Url.split_scheme _) as [scheme rest].
  apply only_ValueError_bind.
  - destruct (Str.startswith "//" rest); [|apply only_ValueError_Ok].
    destruct (Url.splitnetloc rest 2) as [netloc url'].
    apply only_ValueError_bind; [|intros; apply only_ValueError_Ok].
    unfold Url.check_brackets.
    repeat (destruct (_ : bool);
            try apply only_ValueError_Ok; try apply only_ValueError_Raise).
  - intros [netloc url']. destruct (Url.split_at "#" url') as [u fragment].
    destruct (Url.split_at "?" u) as [path query].
    apply only_ValueError_bind; [|intros; apply only_ValueError_Ok].
    unfold Url.checknetloc.
    repeat (destruct (_ : bool);
            try apply only_ValueError_Ok; try apply only_ValueError_Raise).
Qed.

Lemma urljoin_raises (base url : string) :
  only_ValueError (Url.urljoin base url).
Proof.
  unfold Url.urljoin.
  destruct (Str.is_empty base); [apply only_ValueError_Ok|].
  destruct (Str.is_empty url); [apply only_ValueError_Ok|].
  apply only_ValueError_bind; [apply urlsplit_raises|]. intros _.
  apply only_ValueError_bind; [apply urlsplit_raises|]. intros _.
  apply only_ValueError_Ok.
Qed.

Lemma resolve_raises (current_url href : string) :
  only_ValueError (resolve current_url href).
Proof.
  apply only_ValueError_bind; [apply urljoin_raises|].
  intros; apply only_ValueError_Ok.
Qed.

Lemma url_to_filename_raises (url : string) :
  only_ValueError (url_to_filename url).
Proof.
  apply only_ValueError_bind; [|intros; apply only_ValueError_Ok].
  apply only_ValueError_bind; [apply urlsplit_raises|]. intros r.
  destruct (_ && _); apply only_ValueError_Ok.
Qed.

Lemma rewrite_node_raises (current_url : string) (n : node) :
  only_ValueError (rewrite_node current_url n).
Proof.
  induction n as [k s|name attrs kids IH] using node_ind'.
  - apply only_ValueError_Ok.
  - cbn [rewrite_node]. apply only_ValueError_bind.
    + destruct (Bs4.is_anchor _) as [href|]; [|apply only_ValueError_Ok].
      apply only_ValueError_bind; [apply resolve_raises|]. intros full.
      destruct (is_internal full); [|apply only_ValueError_Ok].
      apply only_ValueError_bind; [apply url_to_filename_raises|].
      intros; apply only_ValueError_Ok.
    + intros attrs'. apply only_ValueError_bind;
        [|intros; apply only_ValueError_Ok].
      induction IH as [|k ks IHk _ IHks]; cbn [mapM].
      * apply only_ValueError_Ok.
      * apply only_ValueError_bind; [apply IHk|]. intros k'.
        apply only_ValueError_bind; [apply IHks|]. intros ks'.
        apply only_ValueError_Ok.
Qed.

End Exceptions.

(** ** Stripping the query string and the fragment *)

Section Canonical.

Lemma split_head_cons (sep c : ascii) (s : string) :
  Str.split_head sep (String c s)
  = if Ascii.eqb c sep then "" else String c (Str.split_head sep s).
Proof.
  unfold Str.split_head. cbn [Str.partition].
  destruct (Ascii.eqb c sep); [reflexivity|].
  destruct (Str.partition sep s) as [[a b]|]; reflexivity.
Qed.

Lemma split_head_no_sep (sep : ascii) (s : string) :
  Str.mem sep (Str.split_head sep s) = false.
Proof.
  induction s as [|c s IH]; [reflexivity|]. rewrite split_head_cons.
  destruct (Ascii.eqb c sep) eqn:Hc; [reflexivity|].
  cbn [Str.mem]. now rewrite IH, Ascii.eqb_sym, Hc.
Qed.

Lemma split_head_keeps_out (sep c : ascii) (s : string) :
  Str.mem c s = false -> Str.mem c (Str.split_head sep s) = false.
Proof.
  induction s as [|d s IH]; [auto|]. rewrite split_head_cons.
  cbn [Str.mem]. intros [Hd Hs]%orb_false_iff.
  destruct (Ascii.eqb d sep); [reflexivity|].
  cbn [Str.mem]. now rewrite Hd, IH.
Qed.

Lemma split_head_id (sep : ascii) (s : string) :
  Str.mem sep s = false -> Str.split_head sep s = s.
Proof.
  induction s as [|c s IH]; [auto|]. rewrite split_head_cons.
  cbn [Str.mem]. intros [Hc Hs]%orb_false_iff.
  rewrite Ascii.eqb_sym, Hc. now rewrite IH.
Qed.

Lemma startswith_split_head (sep : ascii) (p s : string) :
  Str.mem sep p = false ->
  Str.startswith p (Str.split_head sep s) = Str.startswith p s.
Proof.
  revert s. induction p as [|c p IH]; intros s Hp; [reflexivity|].
  cbn [Str.mem] in Hp. apply orb_false_iff in Hp as [Hc Hp].
  destruct s as [|d s]; [reflexivity|]. rewrite split_head_cons.
  destruct (Ascii.eqb d sep) eqn:Hd.
  - apply Ascii.eqb_eq in Hd as ->. cbn [Str.startswith].
    now rewrite Ascii.eqb_sym, Hc.
  - cbn [Str.startswith]. now rewrite IH.
Qed.

Lemma split_head_app (sep : ascii) (u t : string) :
  Str.mem sep u = false ->
  Str.split_head sep (u ++ t) = u ++ Str.split_head sep t.
Proof.
  induction u as [|c u IH]; [reflexivity|]. cbn [Str.mem append].
  intros [Hc Hu]%orb_false_iff. rewrite split_head_cons.
  rewrite Ascii.eqb_sym, Hc. now rewrite IH.
Qed.

Lemma split_head_rest (sep : ascii) (s : string) :
  exists rest,
    s = Str.split_head sep s ++ rest /\
    match rest with
    | EmptyString => True
    | String c _ => c = sep
    end.
Proof.
  induction s as [|c s (rest & Hs & Hrest)].
  - exists "". split; [reflexivity | exact I].
  - rewrite split_head_cons. destruct (Ascii.eqb_spec c sep) as [->|Hc].
    + exists (String sep s). split; reflexivity.
    + exists rest. cbn [append]. now rewrite <- Hs.
Qed.

(** The words of the specification pin down what the code strips. *)
Lemma Stripped_iff (raw u : string) :
  Spec.Stripped raw u <-> u = strip_query_fragment raw.
Proof.
  unfold Spec.Stripped, strip_query_fragment. split.
  - intros (rest & -> & Hq & Hh & Hrest).
    rewrite (split_head_app "?") by assumption.
    destruct rest as [|c rest].
    + cbn. rewrite StrFacts.append_nil_r. now rewrite split_head_id.
    + destruct Hrest as [-> | ->].
      * rewrite split_head_cons. cbn [Ascii.eqb Bool.eqb].
        rewrite StrFacts.append_nil_r. now rewrite split_head_id.
      * rewrite split_head_cons. cbn [Ascii.eqb Bool.eqb].
        rewrite (split_head_app "#") by assumption.
        rewrite split_head_cons. cbn [Ascii.eqb Bool.eqb].
        now rewrite StrFacts.append_nil_r.
  - intros ->.
    destruct (split_head_rest "?" raw) as (r1 & H1 & Hr1).
    destruct (split_head_rest "#" (Str.split_head "?" raw))
      as (r2 & H2 & Hr2).
    exists (r2 ++ r1). split.
    + rewrite <- StrFacts.append_assoc, <- H2. exact H1.
    + split; [apply split_head_keeps_out, split_head_no_sep|].
      split; [apply split_head_no_sep|].
      destruct r2 as [|c r2]; cbn [append].
      * destruct r1; [exact I | now left].
      * now right.
Qed.

Lemma Internal_iff (u : string) : Spec.Internal u <-> is_internal u = true.
Proof. symmetry. apply (StrFacts.startswith_app BASE_URL). Qed.

End Canonical.

(** ** The link rewriter and the link extractor *)

Section Links.
Context `{Urllib} `{HtmlParser}.

Lemma get_set (key value : string) (attrs : list (string * string)) :
  Bs4.get key (Bs4.set key value attrs) = Some value.
Proof.
  induction attrs as [|[k v] attrs IH]; cbn [Bs4.set Bs4.get].
  - now rewrite String.eqb_refl.
  - destruct (String.eqb k key) eqn:Hk; cbn [Bs4.get]; now rewrite Hk.
Qed.

Lemma blank_href_set (value : string) (attrs : list (string * string)) :
  is_Some (Bs4.get "href" attrs) ->
  blank_href (Bs4.set "href" value attrs) = blank_href attrs.
Proof.
  induction attrs as [|[k v] attrs IH]; cbn [Bs4.set Bs4.get].
  - intros [? [=]].
  - destruct (String.eqb k "href") eqn:Hk; intros Hget.
    + cbn [blank_href map fst]. now rewrite Hk.
    + cbn [blank_href map fst]. rewrite Hk. f_equal. now apply IH.
Qed.

Lemma mapM_Ok {A B} (f : A -> result B) (l : list A) (k : list B) :
  mapM f l = Ok k -> Forall2 (fun x y => f x = Ok y) l k.
Proof.
  revert k. induction l as [|x l IH]; intros k; cbn [mapM].
  - intros [= <-]. constructor.
  - destruct (f x) as [y|e] eqn:Hx; [|discriminate]. cbn [mbind result_bind].
    destruct (mapM f l) as [k'|e]; [|discriminate]. cbn.
    intros [= <-]. constructor; auto.
Qed.

Lemma mapM_is_Ok {A B} (f : A -> result B) (l : list A) :
  Forall (fun x => is_Ok (f x)) l -> is_Ok (mapM f l).
Proof.
  induction 1 as [|x l [y Hy] _ [k Hk]]; cbn [mapM].
  - eexists. reflexivity.
  - rewrite Hy. cbn [mbind result_bind]. rewrite Hk. eexists. reflexivity.
Qed.

(** What [rewrite_href] does to the attributes of an anchor. *)
Lemma rewrite_href_sound (current_url href : string)
    (attrs attrs' : list (string * string)) :
  Bs4.get "href" attrs = Some href ->
  rewrite_href current_url href attrs = Ok attrs' ->
  exists href', Bs4.get "href" attrs' = Some href' /\
    rewritten current_url href href' /\
    blank_href attrs' = blank_href attrs.
Proof.
  intros Hget. unfold rewrite_href, resolve, rewritten.
  destruct (Url.urljoin current_url href) as [raw|e]; [|discriminate].
  cbn [mbind result_bind].
  destruct (is_internal (strip_query_fragment raw)) eqn:Hint.
  - destruct (url_to_filename _) as [filename|e] eqn:Hf; [|discriminate].
    cbn [mbind result_bind]. intros [= <-]. exists filename.
    split; [apply get_set|]. split.
    + exists raw. split; [reflexivity|]. cbv zeta. rewrite Hint.
      pose proof (url_to_filename_no_slash _ _ Hf) as Hno.
      pose proof (is_internal_slash _ Hint) as Hyes.
      repeat split; [assumption| |].
      * intros ->. congruence.
      * intros ->. unfold strip_query_fragment, Str.split_head in Hyes.
        assert (Hmono : forall sep s a b, Str.partition sep s = Some (a, b) ->
                  Str.mem "/" a = true -> Str.mem "/" s = true).
        { intros sep s. induction s as [|c s IH]; cbn [Str.partition];
            [discriminate|]. intros a b.
          destruct (Ascii.eqb c sep); [intros [= <- <-]; discriminate|].
          destruct (Str.partition sep s) as [[a' b']|]; [|discriminate].
          intros [= <- <-]. cbn [Str.mem].
          intros [->| Ha]%orb_true_iff; [reflexivity|].
          erewrite IH by eauto. apply orb_true_r. }
        destruct (Str.partition "?" raw) as [[a b]|] eqn:Hq.
        -- destruct (Str.partition "#" a) as [[a' b']|] eqn:Hh.
           ++ pose proof (Hmono _ _ _ _ Hh Hyes) as Ha.
              pose proof (Hmono _ _ _ _ Hq Ha). congruence.
           ++ pose proof (Hmono _ _ _ _ Hq Hyes). congruence.
        -- destruct (Str.partition "#" raw) as [[a' b']|] eqn:Hh.
           ++ pose proof (Hmono _ _ _ _ Hh Hyes). congruence.
           ++ congruence.
    + apply blank_href_set. eauto.
  - intros [= <-]. exists href. split; [assumption|]. split; [|reflexivity].
    exists raw. split; [reflexivity|]. cbv zeta. now rewrite Hint.
Qed.

(** The rewriter relates the anchors one by one and leaves the rest of a
    node as it was. *)
Lemma rewrite_node_sound (current_url : string) (n : node) : forall n',
  rewrite_node current_url n = Ok n' ->
  Forall2 (rewritten current_url) (Bs4.node_hrefs n) (Bs4.node_hrefs n') /\
  skeleton n' = skeleton n.
Proof.
  induction n as [k s|name attrs kids IH] using node_ind'; intros n'.
  - intros [= <-]. split; [constructor | reflexivity].
  - cbn [rewrite_node].
    destruct (match Bs4.is_anchor (Tag name attrs kids) with
              | Some href => rewrite_href current_url href attrs
              | None => Ok attrs
              end) as [attrs'|e] eqn:Hattrs; [|discriminate].
    cbn [mbind result_bind].
    destruct (mapM (rewrite_node current_url) kids) as [kids'|e] eqn:Hkids;
      [|discriminate].
    cbn [mbind result_bind]. intros [= <-].
    apply mapM_Ok in Hkids.
    assert (Hk : Forall2 (rewritten current_url)
                   (flat_map Bs4.node_hrefs kids)
                   (flat_map Bs4.node_hrefs kids') /\
                 map skeleton kids' = map skeleton kids).
    { clear Hattrs. induction Hkids as [|k k' ks ks' Hk _ IHks].
      - split; [constructor | reflexivity].
      - apply Forall_cons in IH as [IHk IHrest].
        destruct (IHk _ Hk) as [Hh Hs]. destruct (IHks IHrest) as [Hhs Hss].
        split.
        + cbn [flat_map]. now apply Forall2_app.
        + cbn [map]. now rewrite Hs, Hss. }
    destruct Hk as [Hhs Hss].
    cbn [Bs4.node_hrefs skeleton Bs4.is_anchor] in *. rewrite Hss.
    destruct (String.eqb name "a") eqn:Ha.
    + destruct (Bs4.get "href" attrs) as [href|] eqn:Hget.
      * destruct (rewrite_href_sound _ _ _ _ Hget Hattrs)
          as (href' & Hget' & Hrew & Hblank).
        rewrite Hget', Hblank. split; [|reflexivity].
        cbn [app]. now constructor.
      * injection Hattrs as <-. rewrite Hget. split; [assumption|reflexivity].
    + injection Hattrs as <-. split; [assumption|reflexivity].
Qed.

Lemma rewrite_soup_sound (current_url : string) (soup soup' : BeautifulSoup) :
  rewrite_soup current_url soup = Ok soup' ->
  Forall2 (rewritten current_url) (Bs4.hrefs soup) (Bs4.hrefs soup') /\
  map skeleton soup' = map skeleton soup.
Proof.
  unfold rewrite_soup. intros Hs%mapM_Ok.
  induction Hs as [|n n' s s' Hn _ [IHh IHs]].
  - split; [constructor | reflexivity].
  - destruct (rewrite_node_sound _ _ _ Hn) as [Hh Hs]. split.
    + unfold Bs4.hrefs. cbn [flat_map]. now apply Forall2_app.
    + cbn [map]. now rewrite Hs, IHs.
Qed.

(** C3, as amended.  In the document [rewrite_internal_links] writes out,
    every anchor whose resolved and stripped target is internal holds the
    filename of that target, which differs from the absolute form it
    replaces, and every other anchor holds its reference as it was in the
    input, query string and fragment included. *)
Theorem rewrite_internal_links_anchors (html current_url out : string) :
  rewrite_internal_links html current_url = Ok out ->
  exists soup',
    rewrite_soup current_url (parse html) = Ok soup' /\
    out = serialize soup' /\
    Forall2 (rewritten current_url) (Bs4.hrefs (parse html)) (Bs4.hrefs soup').
Proof.
  unfold rewrite_internal_links, new_soup.
  destruct (parse_raises html); [discriminate|]. cbn [mbind result_bind].
  destruct (rewrite_soup current_url (parse html)) as [soup'|e] eqn:Hs;
    [|discriminate].
  intros [= <-]. exists soup'. repeat split.
  now apply (rewrite_soup_sound _ _ _ Hs).
Qed.

(** C5.  The document [rewrite_internal_links] writes out is the parsed
    input with nothing changed but [href] values of [a] tags: names,
    attributes, strings and the order of the children are the same. *)
Theorem rewrite_internal_links_frame (html current_url out : string) :
  rewrite_internal_links html current_url = Ok out ->
  exists soup',
    out = serialize soup' /\
    map skeleton soup' = map skeleton (parse html).
Proof.
  unfold rewrite_internal_links, new_soup.
  destruct (parse_raises html); [discriminate|]. cbn [mbind result_bind].
  destruct (rewrite_soup current_url (parse html)) as [soup'|e] eqn:Hs;
    [|discriminate].
  intros [= <-]. exists soup'. split; [reflexivity|].
  now apply (rewrite_soup_sound _ _ _ Hs).
Qed.

Lemma extract_loop_spec (current_url : string) (hrefs : list string) :
  forall (links : gset string) (w : world),
  extract_loop current_url hrefs links w =
  match mapM (resolve current_url) hrefs with
  | Ok fulls =>
      (Ok (list_to_set
             (filter (fun u => is_internal u = true /\ u ∉ visited w) fulls)
           ∪ links), w)
  | Raise e => (Raise e, w)
  end.
Proof.
  induction hrefs as [|href hrefs IH]; intros links w.
  - cbn [extract_loop mapM]. unfold mret, M_ret, result_ret.
    f_equal. f_equal. set_solver.
  - cbn [extract_loop mapM]. unfold mbind at 1. unfold M_bind, lift.
    destruct (resolve current_url href) as [full|e]; [|reflexivity].
    unfold mbind at 1. unfold get_visited. cbn [mbind result_bind].
    destruct (is_internal full) eqn:Hint; cbn [andb].
    + case_bool_decide as Hv; rewrite IH;
        destruct (mapM (resolve current_url) hrefs) as [fulls|e];
        try reflexivity; cbn [mbind result_bind mret result_ret].
      * rewrite filter_cons_True by auto. f_equal. f_equal. set_solver.
      * rewrite filter_cons_False by tauto. reflexivity.
    + rewrite IH. destruct (mapM (resolve current_url) hrefs) as [fulls|e];
        try reflexivity; cbn [mbind result_bind mret result_ret].
      rewrite filter_cons_False; [reflexivity|]. intros [? _]. congruence.
Qed.

Lemma mapM_resolve (current_url : string) (hrefs : list string) :
  mapM (resolve current_url) hrefs =
  match mapM (Url.urljoin current_url) hrefs with
  | Ok raws => Ok (map strip_query_fragment raws)
  | Raise e => Raise e
  end.
Proof.
  induction hrefs as [|href hrefs IH]; [reflexivity|].
  cbn [mapM].
  destruct (Url.urljoin current_url href) as [raw|e] eqn:Hj.
  - assert (Hr : resolve current_url href = Ok (strip_query_fragment raw))
      by (unfold resolve; now rewrite Hj).
    rewrite Hr. cbn [mbind result_bind]. rewrite IH.
    destruct (mapM (Url.urljoin current_url) hrefs); reflexivity.
  - assert (Hr : resolve current_url href = Raise e)
      by (unfold resolve; now rewrite Hj).
    now rewrite Hr.
Qed.

(** C6, as amended.  When the parser accepts the markup and [urljoin]
    accepts the reference of every anchor, [extract_internal_links]
    returns the set of the URLs [u] such that [u] is the result of
    [urljoin] for some anchor, cut at its first "?" or "#", [u] starts with
    the site root, and [u] is not in [visited].  When the parser or
    [urljoin] raises, so does [extract_internal_links].  In each case the
    world, [visited] included, is left as it was. *)
Theorem extract_internal_links_spec (html current_url : string) (w : world) :
  match new_soup html with
  | Raise e => extract_internal_links html current_url w = (Raise e, w)
  | Ok soup =>
      match mapM (Url.urljoin current_url) (Bs4.hrefs soup) with
      | Raise e => extract_internal_links html current_url w = (Raise e, w)
      | Ok raws =>
          exists links,
            extract_internal_links html current_url w = (Ok links, w) /\
            forall u,
              u ∈ links <->
              (exists raw, raw ∈ raws /\ Spec.Stripped raw u) /\
              Spec.Internal u /\ (u ∉ visited w)
      end
  end.
Proof.
  unfold extract_internal_links, mbind, M_bind, lift.
  destruct (new_soup html) as [soup|e]; [|reflexivity].
  rewrite extract_loop_spec, mapM_resolve.
  destruct (mapM (Url.urljoin current_url) (Bs4.hrefs soup)) as [raws|e];
    [|reflexivity].
  eexists. split; [reflexivity|]. intros u.
  rewrite elem_of_union, elem_of_list_to_set, list_elem_of_filter,
    list_elem_of_fmap, Internal_iff.
  split.
  - intros [[[Hint Hv] (raw & -> & Hraw)] | Hu]; [|set_solver].
    split; [|auto]. exists raw. split; [assumption|].
    now apply Stripped_iff.
  - intros ((raw & Hraw & Hs%Stripped_iff) & Hint & Hv). left.
    split; [auto|]. now exists raw.
Qed.

End Links.

(** C3, as stated, fails: an anchor to another site keeps its query string,
    which the normalized form of its target has lost. *)
Lemma external_anchor_keeps_query :
  let href := "https://external.example/?ref=1" in
  let soup := [Tag "a" [("href", href)] []] in
  @resolve absolute_refs START_PAGE href = Ok "https://external.example/" /\
  is_internal "https://external.example/" = false /\
  @rewrite_soup absolute_refs START_PAGE soup = Ok soup /\
  Bs4.hrefs soup = [href] /\
  href <> "https://external.example/".
Proof. repeat split. discriminate. Qed.

(** C6, as stated, fails: [urlparse] rejects the reference of an anchor,
    [urljoin] raises, and [extract_internal_links] returns no set. *)
Lemma extract_raises_on_malformed_anchor :
  Bs4.hrefs (@parse anchors_only "//[") = ["//["] /\
  @Url.urljoin absolute_refs START_PAGE "//[" = Raise ValueError /\
  @extract_internal_links absolute_refs anchors_only "//[" START_PAGE
    initial_world
  = (Raise ValueError, initial_world).
Proof. repeat split. Qed.

Example extract_start_page :
  @extract_internal_links absolute_refs anchors_only
    (@page_content two_pages START_PAGE) START_PAGE initial_world
  = (Ok {[ABOUT_PAGE]}, initial_world).
Proof. vm_compute. reflexivity. Qed.

(** The rewriter on the start page of [two_pages]: the anchor to the about
    page becomes "about.html", the anchor to the other site stays. *)
Lemma rewrite_internal_links_anchors_witness :
  exists soup',
    @rewrite_soup absolute_refs START_PAGE
      (@parse anchors_only (@page_content two_pages START_PAGE)) = Ok soup' /\
    "about.html https://external.example/?ref=1" = @serialize anchors_only soup' /\
    Forall2 (@rewritten absolute_refs START_PAGE)
      (Bs4.hrefs (@parse anchors_only (@page_content two_pages START_PAGE)))
      (Bs4.hrefs soup').
Proof.
  apply (@rewrite_internal_links_anchors absolute_refs anchors_only).
  vm_compute. reflexivity.
Defined.

(** The same page: nothing but the two references can differ. *)
Lemma rewrite_internal_links_frame_witness :
  exists soup',
    "about.html https://external.example/?ref=1" = @serialize anchors_only soup' /\
    map skeleton soup'
    = map skeleton (@parse anchors_only (@page_content two_pages START_PAGE)).
Proof.
  apply (@rewrite_internal_links_frame absolute_refs anchors_only _ START_PAGE).
  vm_compute. reflexivity.
Defined.

(** ** One page *)

Section PageFacts.
Context `{Urllib} `{HtmlParser} `{Browser} `{FileSystem}.

(** [extract_internal_links] in one equation. *)
Lemma extract_internal_links_eq (html current_url : string) (w : world) :
  extract_internal_links html current_url w =
  match parse_raises html with
  | Some e => (Raise e, w)
  | None =>
      match mapM (resolve current_url) (Bs4.hrefs (parse html)) with
      | Ok fulls => (Ok (unvisited_internal (visited w) fulls), w)
      | Raise e => (Raise e, w)
      end
  end.
Proof.
  unfold extract_internal_links, new_soup, mbind, M_bind, lift.
  destruct (parse_raises html); [reflexivity|].
  rewrite extract_loop_spec. destruct (mapM _ _); [|reflexivity].
  unfold unvisited_internal. f_equal. f_equal. set_solver.
Qed.

Lemma bind_browser_call {A} (site : call_site) (url : string) (ev : event)
    (k : unit -> M A) (w : world) :
  (browser_call site url ev ≫= k) w =
  let w' := mkWorld (visited w) (files w) (trace w ++ [ev]) in
  match call_raises site url with
  | Some e => (Raise e, w')
  | None => k tt w'
  end.
Proof.
  unfold browser_call, emit, raise, mbind, M_bind, mret, M_ret.
  destruct (call_raises site url); reflexivity.
Qed.

Lemma bind_goto {A} (url : string) (k : unit -> M A) (w : world) :
  (try_except (page_goto url)
     (fun _ => browser_call AtFallbackWait url (WaitForTimeout 5000%N))
   ≫= k) w =
  let w' := mkWorld (visited w) (files w) (trace w ++ [Goto url 30000%N]) in
  match goto url with
  | None => k tt w'
  | Some _ =>
      (browser_call AtFallbackWait url (WaitForTimeout 5000%N) ≫= k) w'
  end.
Proof.
  unfold try_except, page_goto, emit, raise, mbind, M_bind, mret, M_ret.
  destruct (goto url); reflexivity.
Qed.

(** [crawl_page] in one equation: the filename is computed first, then the
    browser is driven, then the markup is parsed and the links are
    extracted, then the document is built, and the file is written last;
    the first step that raises ends it. *)
Lemma crawl_page_spec (url : string) (w : world) :
  crawl_page url w =
  match url_to_filename url with
  | Raise e => (Raise e, w)
  | Ok filename =>
      let tr := (trace w ++ fst (run_calls (fetch_calls url)))%list in
      let w1 := mkWorld (visited w) (files w) tr in
      let path := os_path_join OUTPUT_DIR filename in
      match snd (run_calls (fetch_calls url)) with
      | Some e => (Raise e, w1)
      | None =>
      match parse_raises (page_content url) with
      | Some e => (Raise e, w1)
      | None =>
      match page_links url with
      | Raise e => (Raise e, w1)
      | Ok fulls =>
      match page_document url with
      | Raise e => (Raise e, w1)
      | Ok final_html =>
      match open_raises path final_html with
      | Some e => (Raise e, w1)
      | None =>
          (Ok (unvisited_internal (visited w) fulls),
           mkWorld (visited w) (<[path := final_html]> (files w)) tr)
      end end end end end
  end.
Proof.
  unfold crawl_page. unfold mbind at 1. unfold M_bind at 1. unfold lift at 1.
  destruct (url_to_filename url) as [filename|e]; [|reflexivity].
  cbv zeta. unfold fetch_calls.
  rewrite bind_browser_call. cbv zeta.
  destruct (call_raises AtNewContext url); [reflexivity|].
  rewrite bind_browser_call. cbv zeta. cbn [visited files trace].
  destruct (call_raises AtNewPage url);
    [cbn [run_calls app fst snd]; now rewrite <- !app_assoc|].
  rewrite bind_goto. cbv zeta. cbn [visited files trace].
  assert (Hrest : forall (w0 : world) (evs : list event),
    trace w0 = (trace w ++ evs)%list ->
    visited w0 = visited w -> files w0 = files w ->
    (_ ← browser_call AtSettleWait url (WaitForTimeout 2000%N);
     _ ← browser_call AtEvaluate url Evaluate;
     _ ← browser_call AtContent url Content;
     _ ← browser_call AtClose url CloseContext;
     new_links ← extract_internal_links (page_content url) url;
     final_html ← lift (materialize (page_content url) (page_styles url) url);
     _ ← save_file (os_path_join OUTPUT_DIR filename) final_html;
     mret new_links) w0
    = let calls := [(WaitForTimeout 2000%N, call_raises AtSettleWait url);
                    (Evaluate, call_raises AtEvaluate url);
                    (Content, call_raises AtContent url);
                    (CloseContext, call_raises AtClose url)] in
      let tr := (trace w ++ evs ++ fst (run_calls calls))%list in
      let w1 := mkWorld (visited w) (files w) tr in
      let path := os_path_join OUTPUT_DIR filename in
      match snd (run_calls calls) with
      | Some e => (Raise e, w1)
      | None =>
      match parse_raises (page_content url) with
      | Some e => (Raise e, w1)
      | None =>
      match page_links url with
      | Raise e => (Raise e, w1)
      | Ok fulls =>
      match page_document url with
      | Raise e => (Raise e, w1)
      | Ok final_html =>
      match open_raises path final_html with
      | Some e => (Raise e, w1)
      | None =>
          (Ok (unvisited_internal (visited w) fulls),
           mkWorld (visited w) (<[path := final_html]> (files w)) tr)
      end end end end end).
  { intros [v0 f0 t0] evs Ht Hv Hf. cbn [trace visited files] in Ht, Hv, Hf.
    subst. cbv zeta.
    rewrite bind_browser_call. cbv zeta. cbn [visited files trace].
    destruct (call_raises AtSettleWait url);
      [cbn [run_calls app fst snd]; now rewrite <- !app_assoc|].
    rewrite bind_browser_call. cbv zeta. cbn [visited files trace].
    destruct (call_raises AtEvaluate url);
      [cbn [run_calls app fst snd]; now rewrite <- !app_assoc|].
    rewrite bind_browser_call. cbv zeta. cbn [visited files trace].
    destruct (call_raises AtContent url);
      [cbn [run_calls app fst snd]; now rewrite <- !app_assoc|].
    rewrite bind_browser_call. cbv zeta. cbn [visited files trace].
    destruct (call_raises AtClose url);
      [cbn [run_calls app fst snd]; now rewrite <- !app_assoc|].
    cbn [run_calls app fst snd]. rewrite <- !app_assoc. cbn [app].
    unfold mbind at 1. unfold M_bind at 1.
    rewrite extract_internal_links_eq. cbn [visited files trace].
    fold (page_links url). fold (page_document url).
    destruct (parse_raises (page_content url)); [reflexivity|].
    destruct (page_links url) as [fulls|e]; [|reflexivity].
    unfold mbind at 1. unfold M_bind at 1. unfold lift at 1.
    destruct (page_document url) as [final_html|e]; [|reflexivity].
    unfold mbind, M_bind, save_file, raise, write_file, mret, M_ret.
    destruct (open_raises _ _); reflexivity. }
  destruct (goto url).
  - rewrite bind_browser_call. cbv zeta. cbn [visited files trace].
    destruct (call_raises AtFallbackWait url);
      [cbn [run_calls app fst snd]; now rewrite <- !app_assoc|].
    rewrite (Hrest _ [NewContext; NewPage; Goto url 30000%N;
                      WaitForTimeout 5000%N]);
      [|cbn [trace]; now rewrite <- !app_assoc|reflexivity|reflexivity].
    cbv zeta.
    destruct (call_raises AtSettleWait url), (call_raises AtEvaluate url),
      (call_raises AtContent url), (call_raises AtClose url);
      reflexivity.
  - rewrite (Hrest _ [NewContext; NewPage; Goto url 30000%N]);
      [|cbn [trace]; now rewrite <- !app_assoc|reflexivity|reflexivity].
    cbv zeta.
    destruct (call_raises AtSettleWait url), (call_raises AtEvaluate url),
      (call_raises AtContent url), (call_raises AtClose url);
      reflexivity.
Qed.

Lemma rewrite_node_total (current_url : string) (n : node) :
  Forall (fun href => is_Ok (Url.urljoin current_url href)) (Bs4.node_hrefs n) ->
  is_Ok (rewrite_node current_url n).
Proof.
  induction n as [k s|name attrs kids IH] using node_ind'; intros Hall.
  - eexists. reflexivity.
  - cbn [rewrite_node Bs4.node_hrefs] in *.
    apply Forall_app in Hall as [Hhere Hkids].
    assert (Hattrs : is_Ok (match Bs4.is_anchor (Tag name attrs kids) with
                            | Some href => rewrite_href current_url href attrs
                            | None => Ok attrs
                            end)).
    { destruct (Bs4.is_anchor _) as [href|]; [|eexists; reflexivity].
      apply Forall_cons in Hhere as [[raw Hraw] _].
      unfold rewrite_href, resolve. rewrite Hraw. cbn [mbind result_bind].
      destruct (is_internal _) eqn:Hint; [|eexists; reflexivity].
      destruct (url_to_filename_internal _ Hint) as [f ->].
      eexists. reflexivity. }
    destruct Hattrs as [attrs' ->]. cbn [mbind result_bind].
    assert (Hk : is_Ok (mapM (rewrite_node current_url) kids)).
    { apply mapM_is_Ok. induction IH as [|k ks IHk _ IHks]; [constructor|].
      cbn [flat_map] in Hkids. apply Forall_app in Hkids as [Hk Hks].
      constructor; auto. }
    destruct Hk as [kids' ->]. eexists. reflexivity.
Qed.





End PageFacts.

(** With a head, the base tag goes first and the style block last. *)
Example inject_with_head :
  inject "p { }"
    [Tag "html" [] [Tag "head" [] [Tag "title" [] []]; Tag "body" [] []]]
  = [Tag "html" []
       [Tag "head" [] [base_tag; Tag "title" [] []; style_tag "p { }"];
        Tag "body" [] []]].
Proof. reflexivity. Qed.

Example remove_stylesheets_example :
  Bs4.remove_stylesheets
    [Tag "head" []
       [Tag "link" [("rel", "preload stylesheet"); ("href", "a.css")] [];
        Tag "link" [("rel", "icon"); ("href", "a.png")] []]]
  = [Tag "head" [] [Tag "link" [("rel", "icon"); ("href", "a.png")] []]].
Proof. reflexivity. Qed.

Section Scenario.
#[local] Existing Instance absolute_refs.
#[local] Existing Instance anchors_only.
#[local] Existing Instance writable.



#[local] Existing Instance two_pages.



(** What the two pages of [two_pages] come to. *)
Example crawl_start_page :
  crawl_page START_PAGE initial_world
  = (Ok {[ABOUT_PAGE]},
     mkWorld ∅
       {["spc-site/home.html" := "about.html https://external.example/?ref=1"]}
       [NewContext; NewPage; Goto START_PAGE 30000%N;
        WaitForTimeout 2000%N; Evaluate; Content; CloseContext]).
Proof. vm_compute. reflexivity. Qed.

Example crawl_about_page :
  crawl_page ABOUT_PAGE initial_world
  = (Ok {[START_PAGE]},
     mkWorld ∅ {["spc-site/about.html" := "home.html"]}
       [NewContext; NewPage; Goto ABOUT_PAGE 30000%N; WaitForTimeout 5000%N;
        WaitForTimeout 2000%N; Evaluate; Content; CloseContext]).
Proof. vm_compute. reflexivity. Qed.

End Scenario.

(** ** The crawl loop *)

Section Loop.
Context `{Urllib} `{HtmlParser} `{Browser} `{FileSystem}.

Lemma fetched_app (a b : list event) :
  fetched (a ++ b) = (fetched a ++ fetched b)%list.
Proof.
  induction a as [|e a IH]; [reflexivity|].
  destruct e; cbn [app fetched]; now rewrite IH.
Qed.

(** [page.goto] is called at most once by [crawl_page], and once when no
    browser call raises. *)
Lemma fetched_fetch_calls (url : string) :
  (fetched (fst (run_calls (fetch_calls url))) = [url] \/
   fetched (fst (run_calls (fetch_calls url))) = []) /\
  (snd (run_calls (fetch_calls url)) = None ->
   fetched (fst (run_calls (fetch_calls url))) = [url]).
Proof.
  unfold fetch_calls.
  destruct (call_raises AtNewContext url), (call_raises AtNewPage url),
    (goto url), (call_raises AtFallbackWait url),
    (call_raises AtSettleWait url), (call_raises AtEvaluate url),
    (call_raises AtContent url), (call_raises AtClose url);
    cbn [run_calls app fst snd fetched]; split; auto; discriminate.
Qed.

(** What [crawl_page] comes to: it leaves [visited] alone, extends the
    trace with at most one fetch, for its own URL, and either raises with
    the files as they were, or returns the unvisited internal links of the
    page after one fetch and the writing of the document. *)
Lemma crawl_page_cases (url : string) (w : world) :
  exists evs,
    (fetched evs = [url] \/ fetched evs = []) /\
    ((exists e,
        crawl_page url w
        = (Raise e, mkWorld (visited w) (files w) (trace w ++ evs))) \/
     (exists filename fulls final_html,
        fetched evs = [url] /\
        url_to_filename url = Ok filename /\
        page_links url = Ok fulls /\
        page_document url = Ok final_html /\
        crawl_page url w
        = (Ok (unvisited_internal (visited w) fulls),
           mkWorld (visited w)
             (<[os_path_join OUTPUT_DIR filename := final_html]> (files w))
             (trace w ++ evs)))).
Proof.
  rewrite crawl_page_spec.
  destruct (url_to_filename url) as [filename|e].
  - cbv zeta. exists (fst (run_calls (fetch_calls url))).
    destruct (fetched_fetch_calls url) as [Hor Hnone].
    split; [assumption|].
    destruct (snd (run_calls (fetch_calls url))); [left; eauto|].
    destruct (parse_raises _); [left; eauto|].
    destruct (page_links url) as [fulls|]; [|left; eauto].
    destruct (page_document url) as [final_html|]; [|left; eauto].
    destruct (open_raises _ _); [left; eauto|].
    right. exists filename, fulls, final_html. auto.
  - exists []. split; [now right|]. left. exists e.
    destruct w. cbn [visited files trace]. now rewrite app_nil_r.
Qed.

(** [crawl_page] leaves [visited] alone and calls [page.goto] at most once,
    for its own URL. *)
Lemma crawl_page_world (url : string) (w : world) :
  visited (snd (crawl_page url w)) = visited w /\
  (fetched (trace (snd (crawl_page url w))) = (fetched (trace w) ++ [url])%list
   \/ fetched (trace (snd (crawl_page url w))) = fetched (trace w)).
Proof.
  destruct (crawl_page_cases url w)
    as (evs & Hf & [[e ->] | (fn & fulls & doc & _ & _ & _ & _ & ->)]);
    cbn [snd visited trace]; rewrite fetched_app;
    (split; [reflexivity|]);
    (destruct Hf as [-> | ->]; [now left | right; apply app_nil_r]).
Qed.

(** The links [crawl_page] returns are internal and not visited. *)
Lemma crawl_page_links (url : string) (w : world) (links : gset string) :
  fst (crawl_page url w) = Ok links ->
  forall u, u ∈ links -> is_internal u = true /\ u ∉ visited w.
Proof.
  destruct (crawl_page_cases url w)
    as (evs & Hf & [[e ->] | (fn & fulls & doc & _ & _ & _ & _ & ->)]);
    [discriminate|].
  cbn [fst]. intros [= <-] u. unfold unvisited_internal.
  rewrite elem_of_list_to_set, list_elem_of_filter. tauto.
Qed.

(** One turn of the loop in one equation. *)
Lemma loop_body_spec (url : string) (queue : gset string) (w : world) :
  loop_body url queue w =
  if bool_decide (url ∈ visited w) then (Ok (queue ∖ {[url]}), w)
  else
    match crawl_page url (mkWorld ({[url]} ∪ visited w) (files w) (trace w)) with
    | (Ok new_links, w') =>
        (Ok (queue ∖ {[url]} ∪ filter (fun link => link ∉ visited w') new_links),
         w')
    | (Raise e, w') => (Raise e, w')
    end.
Proof.
  unfold loop_body, mbind, M_bind, get_visited, visited_add, mret, M_ret.
  destruct (bool_decide (url ∈ visited w)); [reflexivity|].
  destruct (crawl_page url _) as [[links|e] w']; reflexivity.
Qed.

Lemma invariant_initial : invariant initial.
Proof.
  repeat split; cbn.
  - constructor.
  - intros url Hin. inversion Hin.
  - set_solver.
Qed.

(** A turn for a URL that is not visited: the URL is visited afterwards,
    [page.goto] was called at most for it, and what is queued comes from
    the queue or is an internal URL not visited. *)
Lemma loop_body_fresh (url : string) (queue : gset string) (w w' : world)
    (r : result (gset string)) :
  url ∉ visited w ->
  loop_body url queue w = (r, w') ->
  visited w' = {[url]} ∪ visited w /\
  (fetched (trace w') = (fetched (trace w) ++ [url])%list
   \/ fetched (trace w') = fetched (trace w)) /\
  (forall queue', r = Ok queue' ->
     forall u, u ∈ queue' ->
       (u ∈ queue /\ u <> url) \/ (is_internal u = true /\ u ∉ visited w')).
Proof.
  intros Hv. rewrite loop_body_spec. rewrite bool_decide_eq_false_2 by done.
  set (w1 := mkWorld ({[url]} ∪ visited w) (files w) (trace w)).
  pose proof (crawl_page_world url w1) as [Hvis Hfetched].
  pose proof (crawl_page_links url w1) as Hlinks.
  destruct (crawl_page url w1) as [[links|e] w2]; intros [= <- <-];
    cbn [fst snd] in *; (split; [exact Hvis|]); (split; [exact Hfetched|]).
  - intros queue' [= <-] u [Hu|Hu]%elem_of_union.
    + left. set_solver.
    + right. apply elem_of_filter in Hu as [Hnew Hu].
      split; [|assumption]. now apply (Hlinks links eq_refl u).
  - intros queue' [=].
Qed.

Lemma loop_body_skip (url : string) (queue : gset string) (w : world) :
  url ∈ visited w -> loop_body url queue w = (Ok (queue ∖ {[url]}), w).
Proof.
  intros Hv. rewrite loop_body_spec. now rewrite bool_decide_eq_true_2.
Qed.

Lemma invariant_fresh (url : string) (queue : gset string) (w w' : world)
    (r : result (gset string)) :
  invariant (Running queue w) ->
  url ∉ visited w ->
  loop_body url queue w = (r, w') ->
  NoDup (fetched (trace w')) /\
  (forall u, u ∈ fetched (trace w') -> u ∈ visited w') /\
  (forall queue', r = Ok queue' -> queue' ## visited w').
Proof.
  intros (Hnodup & Hsub & Hdisj) Hv Hbody. cbn [world_of] in *.
  destruct (loop_body_fresh _ _ _ _ _ Hv Hbody) as (Hvis & Hfetched & Hq).
  assert (Hfresh : url ∉ fetched (trace w)) by (intros ?%Hsub; done).
  split; [|split].
  - destruct Hfetched as [-> | ->]; [|assumption].
    apply NoDup_app. repeat split; [assumption | | apply NoDup_singleton].
    intros u Hu ->%list_elem_of_singleton. done.
  - intros u Hu. rewrite Hvis.
    destruct Hfetched as [Hf | Hf]; rewrite Hf in Hu.
    + apply elem_of_app in Hu as [Hu | ->%list_elem_of_singleton];
        [apply Hsub in Hu|]; set_solver.
    + apply Hsub in Hu. set_solver.
  - intros queue' Hr u Hu Hu'.
    destruct (Hq queue' Hr u Hu) as [[Hin Hne] | [_ Hnot]]; [|done].
    rewrite Hvis in Hu'. set_solver.
Qed.

Lemma invariant_step (c c' : config) :
  invariant c -> step c c' -> invariant c'.
Proof.
  intros Hinv Hstep.
  destruct Hstep as [url queue w queue' w' Hin Hbody
                    |url queue w e w' Hin Hbody].
  - destruct (decide (url ∈ visited w)) as [Hv|Hv].
    + rewrite loop_body_skip in Hbody by assumption.
      injection Hbody as <- <-.
      destruct Hinv as (Hnodup & Hsub & Hdisj). cbn [world_of] in *.
      repeat split; [assumption | assumption | set_solver].
    + destruct (invariant_fresh _ _ _ _ _ Hinv Hv Hbody) as (Hn & Hs & Hd).
      repeat split; [assumption | assumption |]. now apply Hd.
  - destruct (decide (url ∈ visited w)) as [Hv|Hv].
    + rewrite loop_body_skip in Hbody by assumption. discriminate.
    + destruct (invariant_fresh _ _ _ _ _ Hinv Hv Hbody) as (Hn & Hs & _).
      repeat split; assumption.
Qed.

Lemma invariant_steps_from (n : nat) (c0 c : config) :
  invariant c0 -> steps n c0 c -> invariant c.
Proof.
  intros Hinit. induction 1 as [c|n c1 c2 c3 _ IH Hstep]; [assumption|].
  eapply invariant_step; [now apply IH | eassumption].
Qed.

Lemma invariant_steps (n : nat) (c : config) :
  steps n initial c -> invariant c.
Proof.
  intros Hsteps. remember initial as c0 eqn:Hc0.
  induction Hsteps as [c|n c1 c2 c3 _ IH Hstep]; subst.
  - apply invariant_initial.
  - eapply invariant_step; [now apply IH | eassumption].
Qed.

(** C2.  In every run, [page.goto] is called at most once for a URL, and
    only for URLs that are in [visited].  A turn for a visited URL fetches
    nothing; a turn for any other URL adds it to [visited] first and runs
    [crawl_page] in the world that has it. *)
Theorem crawl_at_most_once (n : nat) (c : config) :
  steps n initial c ->
  NoDup (fetched (trace (world_of c))) /\
  (forall url, url ∈ fetched (trace (world_of c)) ->
               url ∈ visited (world_of c)) /\
  (forall url queue w,
     url ∈ visited w ->
     loop_body url queue w = (Ok (queue ∖ {[url]}), w)) /\
  (forall url queue w,
     url ∉ visited w ->
     exists w1,
       visited w1 = {[url]} ∪ visited w /\
       files w1 = files w /\ trace w1 = trace w /\
       loop_body url queue w =
       match crawl_page url w1 with
       | (Ok new_links, w') =>
           (Ok (queue ∖ {[url]}
                ∪ filter (fun link => link ∉ visited w') new_links), w')
       | (Raise e, w') => (Raise e, w')
       end).
Proof.
  intros (Hnodup & Hsub & _)%invariant_steps.
  split; [assumption|]. split; [assumption|]. split.
  - intros url queue w Hv. now apply loop_body_skip.
  - intros url queue w Hv.
    exists (mkWorld ({[url]} ∪ visited w) (files w) (trace w)).
    repeat split. rewrite loop_body_spec.
    now rewrite bool_decide_eq_false_2.
Qed.

(** C10.  At every test of the loop condition, no URL is both in the queue
    and in [visited]. *)
Theorem queue_visited_disjoint (n : nat) (queue : gset string) (w : world) :
  steps n initial (Running queue w) -> queue ## visited w.
Proof. now intros (_ & _ & Hdisj)%invariant_steps. Qed.

(** A turn for a URL that is not visited, in one equation: it raises with
    the files as they were, or it queues the unvisited internal links of
    the page, after one fetch and the writing of the document. *)
Lemma turn_cases (url : string) (queue : gset string) (w : world) :
  url ∉ visited w ->
  exists evs,
    (fetched evs = [url] \/ fetched evs = []) /\
    let v := {[url]} ∪ visited w in
    ((exists e,
        loop_body url queue w
        = (Raise e, mkWorld v (files w) (trace w ++ evs))) \/
     (exists filename fulls final_html,
        fetched evs = [url] /\
        url_to_filename url = Ok filename /\
        page_links url = Ok fulls /\
        page_document url = Ok final_html /\
        loop_body url queue w
        = (Ok (queue ∖ {[url]} ∪ unvisited_internal v fulls),
           mkWorld v
             (<[os_path_join OUTPUT_DIR filename := final_html]> (files w))
             (trace w ++ evs)))).
Proof.
  intros Hv. rewrite loop_body_spec, bool_decide_eq_false_2 by done.
  destruct (crawl_page_cases url
              (mkWorld ({[url]} ∪ visited w) (files w) (trace w)))
    as (evs & Hf & [[e ->] | (fn & fulls & doc & Hf1 & Hfn & Hl & Hd & ->)]);
    exists evs; (split; [assumption|]); cbv zeta; cbn [visited files trace].
  - left. eauto.
  - right. exists fn, fulls, doc. repeat (split; [assumption|]).
    f_equal. f_equal. f_equal.
    apply set_eq. intros u. rewrite elem_of_filter. unfold unvisited_internal.
    rewrite elem_of_list_to_set, list_elem_of_filter. tauto.
Qed.







End Loop.

(** ** The run on the site of two pages *)

Section Run.
#[local] Existing Instance absolute_refs.
#[local] Existing Instance anchors_only.
#[local] Existing Instance two_pages.
#[local] Existing Instance writable.

Lemma two_pages_first_turn : steps 1 initial after_start_page.
Proof.
  eapply steps_S; [apply steps_O|].
  apply (step_ok START_PAGE); [set_solver|].
  vm_compute. reflexivity.
Qed.




(** After the first turn on [two_pages] the start page was fetched once. *)
Lemma crawl_at_most_once_witness :
  NoDup (fetched (trace (world_of after_start_page))) /\
  (forall url, url ∈ fetched (trace (world_of after_start_page)) ->
               url ∈ visited (world_of after_start_page)) /\
  (forall url queue w,
     url ∈ visited w ->
     loop_body url queue w = (Ok (queue ∖ {[url]}), w)) /\
  (forall url queue w,
     url ∉ visited w ->
     exists w1,
       visited w1 = {[url]} ∪ visited w /\
       files w1 = files w /\ trace w1 = trace w /\
       loop_body url queue w =
       match crawl_page url w1 with
       | (Ok new_links, w') =>
           (Ok (queue ∖ {[url]}
                ∪ filter (fun link => link ∉ visited w') new_links), w')
       | (Raise e, w') => (Raise e, w')
       end).
Proof. exact (crawl_at_most_once 1 after_start_page two_pages_first_turn). Defined.

(** After the first turn on [two_pages] the about page is queued and the
    start page is visited. *)
Lemma queue_visited_disjoint_witness :
  ({[ABOUT_PAGE]} : gset string) ## {[START_PAGE]}.
Proof.
  exact (queue_visited_disjoint 1 {[ABOUT_PAGE]} _ two_pages_first_turn).
Defined.


Example two_pages_size : size two_pages_site = 2.
Proof. reflexivity. Qed.

(** The whole run: two turns, then the rename of the home page. *)
Example two_pages_run : steps 2 initial after_about_page.
Proof.
  eapply steps_S; [apply two_pages_first_turn|].
  apply (step_ok ABOUT_PAGE); [set_solver|].
  vm_compute. reflexivity.
Qed.

Example two_pages_renamed :
  files (rename_home (world_of after_about_page))
  = {["spc-site/index.html" := "about.html https://external.example/?ref=1";
      "spc-site/about.html" := "home.html"]}.
Proof. vm_compute. reflexivity. Qed.

End Run.

(** ** The run on a closed site with a malformed reference *)

Section BrokenBranch.
#[local] Existing Instance absolute_refs.
#[local] Existing Instance anchors_only.
#[local] Existing Instance broken_branch.
#[local] Existing Instance writable.



End BrokenBranch.

(** * Further properties *)

(** ** Filenames and canonical URLs *)

Section Names.
Context `{Urllib}.

(** X1.  Stripping the query string and the fragment leaves a URL with no
    "?" and no "#", does nothing to a URL it has already stripped, and does
    not change whether the URL is internal. *)
Theorem strip_query_fragment_canonical (full : string) :
  Str.mem "?" (strip_query_fragment full) = false /\
  Str.mem "#" (strip_query_fragment full) = false /\
  strip_query_fragment (strip_query_fragment full) = strip_query_fragment full /\
  is_internal (strip_query_fragment full) = is_internal full.
Proof.
  unfold strip_query_fragment.
  assert (Hq : Str.mem "?" (Str.split_head "#" (Str.split_head "?" full))
               = false)
    by apply split_head_keeps_out, split_head_no_sep.
  assert (Hh : Str.mem "#" (Str.split_head "#" (Str.split_head "?" full))
               = false)
    by apply split_head_no_sep.
  split; [assumption|]. split; [assumption|]. split.
  - now rewrite (split_head_id "?") by assumption; rewrite split_head_id.
  - unfold is_internal. now rewrite !startswith_split_head.
Qed.

(** X2.  An internal URL always has a filename: [url_to_filename] does not
    raise on it. *)
Theorem internal_url_has_filename (url : string) :
  is_internal url = true -> exists filename, url_to_filename url = Ok filename.
Proof. apply url_to_filename_internal. Qed.

(** X3.  A filename holds no slash and is a non-empty stem followed by
    ".html". *)
Theorem filename_shape (url filename : string) :
  url_to_filename url = Ok filename ->
  Str.mem "/" filename = false /\
  exists stem, filename = stem ++ ".html" /\ stem <> "".
Proof.
  intros Hf. pose proof (url_to_filename_no_slash _ _ Hf) as Hno.
  split; [assumption|].
  unfold url_to_filename in Hf.
  destruct (Url.urlparse_path url) as [path|e]; [|discriminate].
  cbn [mbind result_bind] in Hf. injection Hf as <-.
  eexists. split; [reflexivity|].
  destruct (Str.replace "/" "_" _); discriminate.
Qed.

End Names.

Lemma internal_url_has_filename_witness :
  is_internal (BASE_URL ++ "/about") = true /\
  exists filename,
    @url_to_filename absolute_refs (BASE_URL ++ "/about") = Ok filename.
Proof.
  split; [reflexivity|].
  apply (@internal_url_has_filename absolute_refs). reflexivity.
Defined.

Lemma filename_shape_witness :
  Str.mem "/" "events_2024.html" = false /\
  exists stem, "events_2024.html" = stem ++ ".html" /\ stem <> "".
Proof.
  apply (@filename_shape absolute_refs (BASE_URL ++ "/events/2024")).
  reflexivity.
Defined.

(** ** Links *)

Section MoreLinks.
Context `{Urllib} `{HtmlParser}.

Lemma Forall2_elem_of_right {A B} (R : A -> B -> Prop) (l : list A)
    (k : list B) (y : B) :
  Forall2 R l k -> y ∈ k -> exists x, x ∈ l /\ R x y.
Proof.
  induction 1 as [|x y' l k HR _ IH]; intros Hy.
  - inversion Hy.
  - apply elem_of_cons in Hy as [-> | Hy].
    + exists x. split; [left | assumption].
    + destruct (IH Hy) as (x' & Hx' & HR'). exists x'. split; [now right | assumption].
Qed.

(** X4.  Every URL [extract_internal_links] returns is the resolved and
    stripped reference of an anchor of the markup, is internal, is not in
    [visited], and holds no "?" and no "#". *)
Theorem extract_internal_links_fresh (html current_url : string) (w : world)
    (links : gset string) :
  fst (extract_internal_links html current_url w) = Ok links ->
  forall u, u ∈ links ->
    (exists href, href ∈ Bs4.hrefs (parse html) /\
                  resolve current_url href = Ok u) /\
    is_internal u = true /\ (u ∉ visited w) /\
    Str.mem "?" u = false /\ Str.mem "#" u = false.
Proof.
  unfold extract_internal_links, new_soup, mbind, M_bind, lift.
  destruct (parse_raises html); [discriminate|].
  rewrite extract_loop_spec.
  destruct (mapM _ _) as [fulls|e] eqn:Hm; [|discriminate].
  cbn [fst]. intros [= <-] u [Hu|Hu]%elem_of_union; [|set_solver].
  apply elem_of_list_to_set, list_elem_of_filter in Hu as [[Hint Hv] Hu].
  apply mapM_Ok in Hm.
  destruct (Forall2_elem_of_right _ _ _ _ Hm Hu) as (href & Hhref & Hres).
  split; [eauto|]. split; [assumption|]. split; [assumption|].
  unfold resolve in Hres.
  destruct (Url.urljoin current_url href) as [raw|]; [|discriminate].
  injection Hres as <-.
  split; apply strip_query_fragment_canonical.
Qed.

Lemma Forall2_Forall_left {A B} (R : A -> B -> Prop) (l : list A)
    (k : list B) :
  Forall2 R l k -> Forall (fun x => exists y, R x y) l.
Proof. induction 1; constructor; eauto. Qed.

Lemma rewrite_soup_total (current_url : string) (soup : BeautifulSoup) :
  Forall (fun href => is_Ok (Url.urljoin current_url href)) (Bs4.hrefs soup) ->
  is_Ok (rewrite_soup current_url soup).
Proof.
  intros Hall. apply mapM_is_Ok. unfold Bs4.hrefs in Hall.
  induction soup as [|n soup IH]; [constructor|].
  cbn [flat_map] in Hall. apply Forall_app in Hall as [Hn Hs].
  constructor; [now apply rewrite_node_total | now apply IH].
Qed.

(** X5.  [rewrite_internal_links] returns a document exactly when the
    parser accepts the markup and [urljoin] accepts the reference of every
    anchor of it: [url_to_filename] raises on none of the internal targets
    it is applied to. *)
Theorem rewrite_internal_links_defined (html current_url : string) :
  is_Ok (rewrite_internal_links html current_url) <->
  parse_raises html = None /\
  Forall (fun href => is_Ok (Url.urljoin current_url href))
         (Bs4.hrefs (parse html)).
Proof.
  unfold rewrite_internal_links, new_soup. split.
  - intros [out Hout].
    destruct (parse_raises html); [discriminate|]. split; [reflexivity|].
    cbn [mbind result_bind] in Hout.
    destruct (rewrite_soup current_url (parse html)) as [soup'|e] eqn:Hs;
      [|discriminate].
    apply rewrite_soup_sound in Hs as [Hs _].
    apply Forall2_Forall_left in Hs.
    eapply Forall_impl; [exact Hs|].
    intros href (href' & raw & Hraw & _). now exists raw.
  - intros [-> Hall]. cbn [mbind result_bind].
    destruct (rewrite_soup_total current_url _ Hall) as [soup' ->].
    eexists. reflexivity.
Qed.

End MoreLinks.

(** The parser accepts the start page of [two_pages] and [urljoin] its two
    references; a page that holds a reference with an unmatched bracket
    has no rewritten document. *)
Example rewrite_internal_links_defined_examples :
  is_Ok (@rewrite_internal_links absolute_refs anchors_only
           (@page_content two_pages START_PAGE) START_PAGE) /\
  ~ is_Ok (@rewrite_internal_links absolute_refs anchors_only "//["
             START_PAGE).
Proof.
  split; [eexists; vm_compute; reflexivity|].
  intros [out Hout]. discriminate Hout.
Qed.

(** The about page is what the start page of [two_pages] yields. *)
Lemma extract_internal_links_fresh_witness :
  (exists href,
     href ∈ Bs4.hrefs (@parse anchors_only (@page_content two_pages START_PAGE)) /\
     @resolve absolute_refs START_PAGE href = Ok ABOUT_PAGE) /\
  is_internal ABOUT_PAGE = true /\ (ABOUT_PAGE ∉ visited initial_world) /\
  Str.mem "?" ABOUT_PAGE = false /\ Str.mem "#" ABOUT_PAGE = false.
Proof.
  apply (@extract_internal_links_fresh absolute_refs anchors_only
           (@page_content two_pages START_PAGE) START_PAGE initial_world
           {[ABOUT_PAGE]}).
  - vm_compute. reflexivity.
  - set_solver.
Defined.

(** ** Documents *)

Section Documents.

Lemma node_find_head_name (n h : node) :
  Bs4.node_find_head n = Some h -> exists attrs kids, h = Tag "head" attrs kids.
Proof.
  induction n as [k s|name attrs kids IH] using node_ind'; [discriminate|].
  cbn [Bs4.node_find_head].
  destruct (String.eqb name "head") eqn:Hname.
  - apply String.eqb_eq in Hname as ->. intros [= <-]. eauto.
  - induction IH as [|k ks IHk _ IHks]; [discriminate|].
    destruct (Bs4.node_find_head k) as [h'|] eqn:Hk; [|assumption].
    intros [= ->]. now apply IHk.
Qed.

Lemma node_on_head_find (f : list node -> list node) (n : node)
    (attrs : list (string * string)) (kids : list node) :
  Bs4.node_find_head n = Some (Tag "head" attrs kids) ->
  Bs4.node_find_head (Bs4.node_on_head f n)
  = Some (Tag "head" attrs (f kids)).
Proof.
  induction n as [k s|name attrs0 kids0 IH] using node_ind'; [discriminate|].
  cbn [Bs4.node_find_head Bs4.node_on_head].
  destruct (String.eqb name "head") eqn:Hname.
  - intros [= -> -> ->]. cbn [Bs4.node_find_head]. now rewrite Hname.
  - cbn [Bs4.node_find_head]. rewrite Hname.
    induction IH as [|k ks IHk _ IHks]; [discriminate|].
    destruct (Bs4.node_find_head k) as [h'|] eqn:Hk.
    + intros [= ->]. now rewrite (IHk eq_refl).
    + rewrite Hk. assumption.
Qed.

Lemma on_head_find (f : list node -> list node) (soup : BeautifulSoup)
    (attrs : list (string * string)) (kids : list node) :
  Bs4.head soup = Some (Tag "head" attrs kids) ->
  Bs4.head (Bs4.on_head f soup) = Some (Tag "head" attrs (f kids)).
Proof.
  induction soup as [|n soup IH]; [discriminate|].
  cbn [Bs4.head Bs4.on_head].
  destruct (Bs4.node_find_head n) as [h|] eqn:Hn.
  - intros [= ->]. cbn [Bs4.head]. now rewrite (node_on_head_find f n attrs kids).
  - cbn [Bs4.head]. rewrite Hn. assumption.
Qed.

Lemma node_on_head_hrefs (f : list node -> list node) (n : node) :
  (forall kids,
     flat_map Bs4.node_hrefs (f kids) = flat_map Bs4.node_hrefs kids) ->
  Bs4.node_hrefs (Bs4.node_on_head f n) = Bs4.node_hrefs n.
Proof.
  intros Hf.
  induction n as [k s|name attrs kids IH] using node_ind'; [reflexivity|].
  cbn [Bs4.node_on_head]. destruct (String.eqb name "head") eqn:Hname.
  - cbn [Bs4.node_hrefs Bs4.is_anchor]. now rewrite Hf.
  - cbn [Bs4.node_hrefs Bs4.is_anchor]. f_equal.
    induction IH as [|k ks IHk _ IHks]; [reflexivity|].
    destruct (Bs4.node_find_head k); cbn [flat_map]; congruence.
Qed.

Lemma on_head_hrefs (f : list node -> list node) (soup : BeautifulSoup) :
  (forall kids,
     flat_map Bs4.node_hrefs (f kids) = flat_map Bs4.node_hrefs kids) ->
  Bs4.hrefs (Bs4.on_head f soup) = Bs4.hrefs soup.
Proof.
  intros Hf. unfold Bs4.hrefs.
  induction soup as [|n soup IH]; [reflexivity|]. cbn [Bs4.on_head].
  destruct (Bs4.node_find_head n); cbn [flat_map].
  - now rewrite node_on_head_hrefs.
  - now rewrite IH.
Qed.

(** X6.  When the document has a head, after the injection its head has
    the base tag as first child, then the children it had, in their order,
    then the style block with the captured styles. *)
Theorem inject_head_children (styles : string) (soup : BeautifulSoup) (h : node) :
  Bs4.head soup = Some h ->
  exists attrs kids,
    h = Tag "head" attrs kids /\
    Bs4.head (inject styles soup)
    = Some (Tag "head" attrs (base_tag :: kids ++ [style_tag styles])).
Proof.
  intros Hh.
  assert (Hname : exists attrs kids, h = Tag "head" attrs kids).
  { clear styles. induction soup as [|n soup IH]; [discriminate|].
    cbn [Bs4.head] in Hh.
    destruct (Bs4.node_find_head n) as [h'|] eqn:Hn; [|auto].
    injection Hh as ->. eapply node_find_head_name; eassumption. }
  destruct Hname as (attrs & kids & ->). exists attrs, kids.
  split; [reflexivity|]. unfold inject. cbv zeta. rewrite Hh.
  pose proof (on_head_find (Bs4.append (style_tag styles)) _ _ _ Hh) as Hh1.
  rewrite Hh1. apply (on_head_find (Bs4.insert0 base_tag)) in Hh1.
  exact Hh1.
Qed.

(** X7.  The injection adds no anchor and removes none: the references
    found in the document are the same before and after. *)
Theorem inject_keeps_anchors (styles : string) (soup : BeautifulSoup) :
  Bs4.hrefs (inject styles soup) = Bs4.hrefs soup.
Proof.
  unfold inject.
  assert (Happ : forall kids,
            flat_map Bs4.node_hrefs (Bs4.append (style_tag styles) kids)
            = flat_map Bs4.node_hrefs kids).
  { intros kids. unfold Bs4.append. rewrite flat_map_app. cbn.
    apply app_nil_r. }
  assert (Hins : forall kids,
            flat_map Bs4.node_hrefs (Bs4.insert0 base_tag kids)
            = flat_map Bs4.node_hrefs kids) by reflexivity.
  cbv zeta. destruct (Bs4.head soup) eqn:Hh.
  - destruct (Bs4.head (Bs4.on_head _ soup)).
    + now rewrite !on_head_hrefs.
    + now rewrite on_head_hrefs.
  - now rewrite Hh.
Qed.

Lemma node_remove_stylesheets_clean (n : node) :
  Bs4.is_stylesheet_link n = false ->
  Forall (fun d => Bs4.is_stylesheet_link d = false)
         (node_descendants (Bs4.node_remove_stylesheets n)).
Proof.
  induction n as [k s|name attrs kids IH] using node_ind'; intros Hn.
  - repeat constructor.
  - cbn [Bs4.node_remove_stylesheets node_descendants].
    constructor; [exact Hn|]. clear Hn.
    induction IH as [|k ks IHk _ IHks]; [constructor|].
    destruct (Bs4.is_stylesheet_link k) eqn:Hk.
    + exact IHks.
    + cbn [flat_map]. apply Forall_app. split; [now apply IHk | exact IHks].
Qed.

Lemma node_remove_stylesheets_id (n : node) :
  Forall (fun d => Bs4.is_stylesheet_link d = false) (node_descendants n) ->
  Bs4.node_remove_stylesheets n = n.
Proof.
  induction n as [k s|name attrs kids IH] using node_ind'; [reflexivity|].
  cbn [node_descendants Bs4.node_remove_stylesheets].
  intros [_ Hkids]%Forall_cons. f_equal.
  induction IH as [|k ks IHk _ IHks]; [reflexivity|].
  cbn [flat_map] in Hkids. apply Forall_app in Hkids as [Hk Hks].
  assert (Hself : Bs4.is_stylesheet_link k = false).
  { destruct k; cbn [node_descendants] in Hk;
      now apply Forall_cons in Hk as [Hk _]. }
  rewrite Hself. f_equal; auto.
Qed.

(** X8.  After the stylesheet links are removed, no node of the document
    is a stylesheet link; a document without one is left as it is, so
    removing twice is removing once. *)
Theorem remove_stylesheets_complete (soup : BeautifulSoup) :
  Forall (fun d => Bs4.is_stylesheet_link d = false)
         (descendants (Bs4.remove_stylesheets soup)) /\
  (Forall (fun d => Bs4.is_stylesheet_link d = false) (descendants soup) ->
   Bs4.remove_stylesheets soup = soup) /\
  Bs4.remove_stylesheets (Bs4.remove_stylesheets soup)
  = Bs4.remove_stylesheets soup.
Proof.
  assert (Hclean : forall s,
            Forall (fun d => Bs4.is_stylesheet_link d = false)
                   (descendants (Bs4.remove_stylesheets s))).
  { intros s. unfold descendants.
    induction s as [|n s IH]; [constructor|]. cbn [Bs4.remove_stylesheets].
    destruct (Bs4.is_stylesheet_link n) eqn:Hn; [assumption|].
    cbn [flat_map]. apply Forall_app.
    split; [now apply node_remove_stylesheets_clean | assumption]. }
  assert (Hid : forall s,
            Forall (fun d => Bs4.is_stylesheet_link d = false) (descendants s) ->
            Bs4.remove_stylesheets s = s).
  { intros s. unfold descendants.
    induction s as [|n s IH]; [reflexivity|]. cbn [flat_map].
    intros [Hn Hs]%Forall_app. cbn [Bs4.remove_stylesheets].
    assert (Hself : Bs4.is_stylesheet_link n = false).
    { destruct n; cbn [node_descendants] in Hn;
        now apply Forall_cons in Hn as [Hn _]. }
    rewrite Hself. f_equal; [now apply node_remove_stylesheets_id | auto]. }
  split; [apply Hclean|]. split; [apply Hid|]. apply Hid, Hclean.
Qed.

(** X9.  The rename after the loop changes neither [visited] nor the
    browser trace; without a home page file it changes nothing; with one,
    and no index file in its way, the index file gets its content, the
    home page file is gone, every other file is as it was, and a second
    rename changes nothing more. *)
Theorem rename_home_spec (w : world) :
  let home := "spc-site/home.html" in
  let index := "spc-site/index.html" in
  visited (rename_home w) = visited w /\
  trace (rename_home w) = trace w /\
  (files w !! home = None -> rename_home w = w) /\
  (forall content,
     files w !! home = Some content ->
     files w !! index = None ->
     files (rename_home w) !! index = Some content /\
     files (rename_home w) !! home = None /\
     (forall path, path <> home -> path <> index ->
                   files (rename_home w) !! path = files w !! path) /\
     rename_home (rename_home w) = rename_home w).
Proof.
  cbv zeta. unfold rename_home.
  change (os_path_join OUTPUT_DIR "home.html") with "spc-site/home.html".
  change (os_path_join OUTPUT_DIR "index.html") with "spc-site/index.html".
  destruct (files w !! "spc-site/home.html") as [content|] eqn:Hhome.
  - cbn [visited trace files]. split; [reflexivity|]. split; [reflexivity|].
    split; [discriminate|]. intros c [= <-] Hindex.
    split; [apply lookup_insert_eq|].
    assert (Hgone : <["spc-site/index.html" := content]>
                      (delete "spc-site/home.html" (files w))
                    !! "spc-site/home.html" = None).
    { rewrite lookup_insert_ne by discriminate. apply lookup_delete_eq. }
    split; [exact Hgone|]. split.
    + intros path Hh Hi.
      rewrite lookup_insert_ne by congruence.
      now rewrite lookup_delete_ne by congruence.
    + now rewrite Hgone.
  - split; [reflexivity|]. split; [reflexivity|]. split; [reflexivity|].
    intros c [=].
Qed.

End Documents.

Lemma inject_head_children_witness :
  exists attrs kids,
    Tag "head" [] [Tag "title" [] []] = Tag "head" attrs kids /\
    Bs4.head (inject "p { }"
                [Tag "html" [] [Tag "head" [] [Tag "title" [] []];
                                Tag "body" [] []]])
    = Some (Tag "head" attrs (base_tag :: kids ++ [style_tag "p { }"])).
Proof.
  apply (inject_head_children "p { }"
           [Tag "html" [] [Tag "head" [] [Tag "title" [] []];
                           Tag "body" [] []]]).
  reflexivity.
Defined.

(** ** Runs *)

Section Runs.
Context `{Urllib} `{HtmlParser} `{Browser} `{FileSystem}.

Lemma reachable_page_internal (url : string) :
  reachable_page url -> is_internal url = true.
Proof. destruct 1; [reflexivity | assumption]. Qed.

Lemma invariant_initial_in (files0 : gmap string string) :
  invariant (initial_in files0).
Proof.
  repeat split; cbn.
  - constructor.
  - intros url Hin. inversion Hin.
  - set_solver.
Qed.

Lemma crawl_invariant_initial (files0 : gmap string string) :
  crawl_invariant files0 0 (initial_in files0).
Proof.
  unfold crawl_invariant. cbn.
  split; [now right|]. split; [set_solver|]. split; [apply size_empty|].
  split; [lia|]. split; [now right|]. split; [lia|].
  split; [intros u ->%elem_of_singleton; constructor|].
  split; [reflexivity|]. split; set_solver.
Qed.

Lemma size_dom_insert (path content : string) (m : gmap string string) :
  (size (dom (<[path := content]> m)) <= S (size (dom m)))%nat.
Proof.
  rewrite dom_insert_L, size_union_alt, size_singleton.
  assert (Hsub : dom m ∖ {[path]} ⊆ dom m) by set_solver.
  apply subseteq_size in Hsub. lia.
Qed.

Lemma crawl_invariant_step (files0 : gmap string string) (n : nat)
    (c c' : config) :
  invariant c -> crawl_invariant files0 n c -> step c c' ->
  crawl_invariant files0 (S n) c'.
Proof.
  intros (_ & _ & Hdisj) Hinv Hstep.
  destruct Hstep as [url queue w queue' w' Hin Hbody
                    |url queue w e0 w' Hin Hbody];
    unfold crawl_invariant in Hinv; cbn [world_of] in Hinv, Hdisj;
    destruct Hinv as (Hstart & Hreach & Hsz & Hle & Hfiles & Hsize
                      & Hq & Hlen & Hhave & Hclosed).
  all: assert (Hv : url ∉ visited w) by set_solver.
  all: assert (HA : START_PAGE ∈ {[url]} ∪ visited w)
         by (destruct Hstart as [Hs | [= -> _]]; set_solver).
  all: assert (HB : forall u, u ∈ {[url]} ∪ visited w -> reachable_page u)
         by (intros u [->%elem_of_singleton | Hu]%elem_of_union; auto).
  all: assert (HS : size ({[url]} ∪ visited w) = S n)
         by (rewrite size_union, size_singleton by set_solver; lia).
  all: assert (HE : forall path,
                      (exists u, u ∈ {[url]} ∪ visited w
                                 /\ filepath_of u = Some path) \/
                      files w !! path = files0 !! path)
         by (intros path; destruct (Hfiles path) as [(u & Hu & Hp) | Heq];
             [left; exists u; split; [set_solver | assumption] | now right]).
  all: destruct (turn_cases url queue w Hv)
         as (evs & Hf & [[e He] | (fn & fulls & doc & Hf1 & Hfn & Hl & Hd & Hok)]);
         cbv zeta in *.
  all: assert (HL : (length (fetched (trace w ++ evs)) <= S n)%nat)
         by (rewrite fetched_app, length_app;
             destruct Hf as [-> | ->]; cbn [length]; lia).
  - rewrite He in Hbody. discriminate.
  - rewrite Hok in Hbody. injection Hbody as <- <-.
    assert (Hpath : filepath_of url = Some (os_path_join OUTPUT_DIR fn))
      by (unfold filepath_of; now rewrite Hfn).
    unfold crawl_invariant. cbn [world_of visited files trace].
    split; [now left|]. split; [exact HB|]. split; [exact HS|].
    split; [exact HL|]. split.
    { intros path.
      destruct (decide (path = os_path_join OUTPUT_DIR fn)) as [->|Hne].
      - left. exists url. split; [set_solver | assumption].
      - rewrite lookup_insert_ne by congruence. apply HE. }
    split.
    { pose proof (size_dom_insert (os_path_join OUTPUT_DIR fn) doc (files w)).
      lia. }
    split.
    { intros u [Hu | Hu]%elem_of_union; [apply Hq; set_solver|].
      unfold unvisited_internal in Hu.
      apply elem_of_list_to_set, list_elem_of_filter in Hu as [[Hi _] Hu].
      eapply reachable_link; eauto. }
    split.
    { rewrite fetched_app, Hf1, length_app, Hlen. cbn [length]. lia. }
    split.
    { intros u [->%elem_of_singleton | Hu]%elem_of_union.
      - eexists. split; [exact Hpath|]. rewrite lookup_insert_eq. eauto.
      - destruct (Hhave u Hu) as (path & Hp & Hsome). exists path.
        split; [assumption|].
        destruct (decide (path = os_path_join OUTPUT_DIR fn)) as [->|Hne].
        + rewrite lookup_insert_eq. eauto.
        + now rewrite lookup_insert_ne by congruence. }
    intros u [->%elem_of_singleton | Hu]%elem_of_union.
    + exists fulls. split; [assumption|]. intros full Hfull Hi.
      destruct (decide (full ∈ {[url]} ∪ visited w)) as [Hold|Hnew];
        [set_solver|].
      apply elem_of_union. left. apply elem_of_union. right.
      unfold unvisited_internal.
      apply elem_of_list_to_set, list_elem_of_filter. auto.
    + destruct (Hclosed u Hu) as (fulls' & Hl' & Hin').
      exists fulls'. split; [assumption|]. intros full Hfull Hi.
      specialize (Hin' full Hfull Hi).
      destruct (decide (full = url)) as [->|Hne]; set_solver.
  - rewrite He in Hbody. injection Hbody as <- <-.
    unfold crawl_invariant. cbn [world_of visited files trace].
    split; [now left|]. split; [exact HB|]. split; [exact HS|].
    split; [exact HL|]. split; [exact HE|]. split; [lia | exact I].
  - rewrite Hok in Hbody. discriminate.
Qed.

Lemma crawl_invariant_steps (files0 : gmap string string) (n : nat)
    (c : config) :
  steps n (initial_in files0) c -> crawl_invariant files0 n c.
Proof.
  intros Hsteps. remember (initial_in files0) as c0 eqn:Hc0.
  induction Hsteps as [c|n c1 c2 c3 Hsteps IH Hstep]; subst.
  - apply crawl_invariant_initial.
  - eapply crawl_invariant_step; [|now apply IH | eassumption].
    eapply invariant_steps_from; [apply invariant_initial_in | eassumption].
Qed.

(** The same for a run that started in an empty directory. *)
Lemma crawl_invariant_run (n : nat) (c : config) :
  steps n initial c -> crawl_invariant ∅ n c.
Proof. exact (crawl_invariant_steps ∅ n c). Qed.

(** X10.  The crawler never leaves the site: in every run, every URL
    handed to [page.goto], every visited URL and every queued URL is
    internal. *)
Theorem crawl_stays_on_site (n : nat) (c : config) :
  steps n initial c ->
  Forall (fun u => is_internal u = true) (fetched (trace (world_of c))) /\
  (forall u, u ∈ visited (world_of c) -> is_internal u = true) /\
  match c with
  | Running queue _ => forall u, u ∈ queue -> is_internal u = true
  | Crashed _ _ => True
  end.
Proof.
  intros Hsteps.
  pose proof (invariant_steps _ _ Hsteps) as (_ & Hsub & _).
  pose proof (crawl_invariant_run _ _ Hsteps)
    as (_ & Hreach & _ & _ & _ & _ & Hrun).
  split; [|split].
  - apply Forall_forall. intros u Hu.
    now apply reachable_page_internal, Hreach, Hsub.
  - intros u Hu. now apply reachable_page_internal, Hreach.
  - destruct c as [queue w|]; [|exact I]. destruct Hrun as (Hq & _).
    intros u Hu. now apply reachable_page_internal, Hq.
Qed.

(** X11.  After [n] turns of the loop exactly [n] URLs are visited, at most
    [n] fetches were made and at most [n] files written.  While the loop
    runs, and so when it ends with an empty queue, exactly [n] fetches were
    made: the count the run reports, [len(visited)], is then the number of
    fetches and bounds the number of files.  The last turn of a run that an
    exception ended may have made no fetch. *)
Theorem crawl_counts (n : nat) (c : config) :
  steps n initial c ->
  size (visited (world_of c)) = n /\
  (length (fetched (trace (world_of c))) <= n)%nat /\
  (size (dom (files (world_of c))) <= n)%nat /\
  match c with
  | Running _ w => length (fetched (trace w)) = n
  | Crashed _ _ => True
  end.
Proof.
  intros (_ & _ & Hsz & Hle & _ & Hsize & Hrun)%crawl_invariant_run.
  rewrite dom_empty_L, size_empty in Hsize.
  split; [assumption|]. split; [assumption|]. split; [lia|].
  destruct c as [queue w|]; [|exact I]. now destruct Hrun as (_ & Hlen & _).
Qed.


(** X13.  When the loop ends with an empty queue, the visited URLs are
    exactly the pages of the site: the start page and everything that can
    be reached from it through internal links. *)
Theorem crawl_complete (n : nat) (w : world) :
  steps n initial (Running ∅ w) ->
  forall u, u ∈ visited w <-> reachable_page u.
Proof.
  intros (Hstart & Hreach & _ & _ & _ & _ & _ & _ & _ & Hclosed)%crawl_invariant_run.
  cbn [world_of] in *. intros u. split; [apply Hreach|].
  induction 1 as [|url fulls full _ IH Hl Hfull Hint].
  - destruct Hstart as [Hs | Hinit]; [assumption|].
    injection Hinit as Hq _. set_solver.
  - destruct (Hclosed url IH) as (fulls' & Hl' & Hin).
    rewrite Hl in Hl'. injection Hl' as <-.
    specialize (Hin full Hfull Hint). set_solver.
Qed.

(** X14.  Whatever the output directory held before the run: when the
    loop ends with an empty queue the home page file exists, so the rename
    is attempted; and when the directory holds no index file then, where
    [os.rename] does the same on every platform, the rename moves the
    content of the home page file to the index file. *)
Theorem home_page_becomes_index (files0 : gmap string string) (n : nat)
    (w : world) :
  steps n (initial_in files0) (Running ∅ w) ->
  exists content,
    files w !! os_path_join OUTPUT_DIR "home.html" = Some content /\
    (files w !! os_path_join OUTPUT_DIR "index.html" = None ->
     files (rename_home w) !! os_path_join OUTPUT_DIR "index.html"
     = Some content /\
     files (rename_home w) !! os_path_join OUTPUT_DIR "home.html" = None).
Proof.
  intros (Hstart & _ & _ & _ & _ & _ & _ & _ & Hhave & _)%crawl_invariant_steps.
  cbn [world_of] in *.
  assert (Hs : START_PAGE ∈ visited w).
  { destruct Hstart as [Hs | Hinit]; [assumption|].
    injection Hinit as Hq _. set_solver. }
  destruct (Hhave _ Hs) as (path & Hp & [content Hc]).
  change (filepath_of START_PAGE)
    with (Some (os_path_join OUTPUT_DIR "home.html")) in Hp.
  injection Hp as <-. exists content. split; [assumption|].
  intros _. unfold rename_home. rewrite Hc. cbn [files].
  split; [apply lookup_insert_eq|].
  rewrite lookup_insert_ne by discriminate. apply lookup_delete_eq.
Qed.

Lemma step_monotone (c c' : config) :
  step c c' ->
  visited (world_of c) ⊆ visited (world_of c') /\
  (forall path, is_Some (files (world_of c) !! path) ->
                is_Some (files (world_of c') !! path)) /\
  exists tr, trace (world_of c') = (trace (world_of c) ++ tr)%list.
Proof.
  assert (Hbody : forall url queue w r w',
            loop_body url queue w = (r, w') ->
            visited w ⊆ visited w' /\
            (forall path, is_Some (files w !! path) ->
                          is_Some (files w' !! path)) /\
            exists tr, trace w' = (trace w ++ tr)%list).
  { intros url queue w r w'. rewrite loop_body_spec.
    destruct (bool_decide (url ∈ visited w)).
    - intros [= <- <-]. split; [done|]. split; [auto|].
      exists []. now rewrite app_nil_r.
    - destruct (crawl_page_cases url
                  (mkWorld ({[url]} ∪ visited w) (files w) (trace w)))
        as (evs & _ & [[e ->] | (fn & fulls & doc & _ & _ & _ & _ & ->)]);
        cbn [visited files trace]; intros [= <- <-];
        cbn [visited files trace];
        (split; [set_solver|]); (split; [|eauto]); [now auto|].
      intros path Hsome.
      destruct (decide (path = os_path_join OUTPUT_DIR fn)) as [->|Hne].
      + rewrite lookup_insert_eq. eauto.
      + now rewrite lookup_insert_ne by congruence. }
  destruct 1 as [url queue w queue' w' _ Hb | url queue w e w' _ Hb];
    cbn [world_of]; eapply Hbody; eassumption.
Qed.

(** X15.  The loop only adds: from any state of a run to any later one,
    every visited URL stays visited, every file stays in place, and the
    browser trace is extended at its end. *)
Theorem run_monotone (k : nat) (c c' : config) :
  steps k c c' ->
  visited (world_of c) ⊆ visited (world_of c') /\
  (forall path, is_Some (files (world_of c) !! path) ->
                is_Some (files (world_of c') !! path)) /\
  exists tr, trace (world_of c') = (trace (world_of c) ++ tr)%list.
Proof.
  induction 1 as [c|k c1 c2 c3 _ (IHv & IHf & tr & IHt) Hstep].
  - split; [done|]. split; [auto|]. exists []. now rewrite app_nil_r.
  - destruct (step_monotone _ _ Hstep) as (Hv & Hf & tr' & Ht).
    split; [set_solver|]. split; [auto|].
    exists (tr ++ tr')%list. now rewrite Ht, IHt, app_assoc.
Qed.


End Runs.

(** ** The run on the site of two pages, again *)

Section RunAgain.
#[local] Existing Instance absolute_refs.
#[local] Existing Instance anchors_only.
#[local] Existing Instance two_pages.
#[local] Existing Instance writable.

(** The run on [two_pages] in a directory that holds a file of an earlier
    run. *)
Lemma two_pages_rerun : steps 2 (initial_in stale_directory) after_rerun.
Proof.
  eapply steps_S; [eapply steps_S; [apply steps_O|]|].
  - apply (step_ok START_PAGE); [set_solver|]. vm_compute. reflexivity.
  - apply (step_ok ABOUT_PAGE); [set_solver|]. vm_compute. reflexivity.
Qed.

(** Both pages fetched on [two_pages] are internal. *)
Lemma crawl_stays_on_site_witness :
  Forall (fun u => is_internal u = true)
         (fetched (trace (world_of after_about_page))) /\
  (forall u, u ∈ visited (world_of after_about_page) -> is_internal u = true) /\
  match after_about_page with
  | Running queue _ => forall u, u ∈ queue -> is_internal u = true
  | Crashed _ _ => True
  end.
Proof. exact (crawl_stays_on_site 2 after_about_page two_pages_run). Defined.

(** Two turns, two pages, two fetches, two files. *)
Lemma crawl_counts_witness :
  size (visited (world_of after_about_page)) = 2 /\
  (length (fetched (trace (world_of after_about_page))) <= 2)%nat /\
  (size (dom (files (world_of after_about_page))) <= 2)%nat /\
  match after_about_page with
  | Running _ w => length (fetched (trace w)) = 2
  | Crashed _ _ => True
  end.
Proof. exact (crawl_counts 2 after_about_page two_pages_run). Defined.


(** The two pages of [two_pages] are all that can be reached. *)
Lemma crawl_complete_witness :
  steps 2 initial after_about_page /\
  forall u, u ∈ visited (world_of after_about_page) <-> reachable_page u.
Proof.
  split; [exact two_pages_run|].
  exact (crawl_complete 2 (world_of after_about_page) two_pages_run).
Defined.

(** The home page of [two_pages] ends up as the index file, in a directory
    that held another file. *)
Lemma home_page_becomes_index_witness :
  steps 2 (initial_in stale_directory) after_rerun /\
  exists content,
    files (world_of after_rerun) !! os_path_join OUTPUT_DIR "home.html"
    = Some content /\
    files (rename_home (world_of after_rerun))
      !! os_path_join OUTPUT_DIR "index.html" = Some content /\
    files (rename_home (world_of after_rerun))
      !! os_path_join OUTPUT_DIR "home.html" = None.
Proof.
  split; [exact two_pages_rerun|].
  destruct (home_page_becomes_index stale_directory 2 (world_of after_rerun)
              two_pages_rerun) as (content & Hhome & Hmove).
  exists content. split; [exact Hhome|].
  apply Hmove. vm_compute. reflexivity.
Defined.

Example two_pages_rerun_renamed :
  files (rename_home (world_of after_rerun))
  = {["spc-site/contact.html" := "home.html";
      "spc-site/index.html" := "about.html https://external.example/?ref=1";
      "spc-site/about.html" := "home.html"]}.
Proof. vm_compute. reflexivity. Qed.

(** From the start of the run on [two_pages] to its end. *)
Lemma run_monotone_witness :
  visited (world_of initial) ⊆ visited (world_of after_about_page) /\
  (forall path, is_Some (files (world_of initial) !! path) ->
                is_Some (files (world_of after_about_page) !! path)) /\
  exists tr, trace (world_of after_about_page)
             = (trace (world_of initial) ++ tr)%list.
Proof. exact (run_monotone 2 initial after_about_page two_pages_run). Defined.


End RunAgain.

(** ** A run that an exception ends *)

Section NoContext.
#[local] Existing Instance absolute_refs.
#[local] Existing Instance anchors_only.
#[local] Existing Instance no_context.
#[local] Existing Instance writable.

(** When [browser.new_context] raises, the turn ends the run before any
    fetch: one turn, one visited URL, no call of [page.goto]. *)
Example crash_before_fetch :
  steps 1 initial
    (Crashed (Playwright PwError) (mkWorld {[START_PAGE]} ∅ [NewContext])) /\
  fetched [NewContext] = [].
Proof.
  split; [|reflexivity].
  eapply steps_S; [apply steps_O|].
  apply (step_raise START_PAGE); [set_solver|].
  vm_compute. reflexivity.
Qed.

End NoContext.
